(** * go-webui: the Go bridge of the WebUI engine (lib.go)

    A shallow embedding of [lib.go]: the callback table [funcList], the
    exported event entry point [goWebuiEvent], [NewWindow], [Window.Bind],
    [Window.Script], [Encode]/[Decode] and the [Data] accessors.

    The C engine (webui.h) is not part of the Go source.  It is an interface
    here (class [WebUI]): every C function the Go code calls is an operation
    on an engine state.  What the Go code passes to the engine is recorded in
    a trace of calls, so that "a response is written" is a fact about the
    trace, whatever the engine does with it. *)

From Stdlib Require Import ZArith List String Ascii Bool Lia.
From Stdlib Require Import Strings.Byte.
From stdpp Require Import gmap strings list.

Local Open Scope Z_scope.

(** ** Go and C data *)

(** [uint], [C.size_t] and [Window] are 64-bit unsigned on every target the
    cgo flags name (x64, arm64); a conversion between them reduces modulo
    [2^64]. *)
Definition uint (z : Z) : Z := z mod 2 ^ 64.

(** [type Window uint] *)
Abbreviation Window := Z (only parsing).

(** [type Data string] *)
Abbreviation Data := string (only parsing).

(** The NUL byte that ends a C string. *)
Definition NUL : byte := x00.

(** [C.CString(s)]: a fresh C buffer holding the bytes of [s] and one NUL. *)
Definition CString (s : string) : list byte :=
  list_byte_of_string s ++ [NUL].

(** What C code (and [C.GoString]) reads from a [char*]: the bytes before the
    first NUL. *)
Fixpoint c_text (p : list byte) : list byte :=
  match p with
  | [] => []
  | b :: p' => if Byte.eqb b NUL then [] else b :: c_text p'
  end.

(** [C.GoString(p)] *)
Definition GoString (p : list byte) : string :=
  string_of_list_byte (c_text p).

(** [C.GoString] of a pointer that may be NULL: Go returns the empty string
    for NULL. *)
Definition GoString_ptr (p : option (list byte)) : string :=
  match p with
  | None => EmptyString
  | Some buf => GoString buf
  end.

(** [bytes.IndexByte(b, c)]: the index of the first [c] in [b], or -1. *)
Fixpoint IndexByte (b : list byte) (c : byte) : Z :=
  match b with
  | [] => -1
  | x :: b' =>
      if Byte.eqb x c then 0
      else let i := IndexByte b' c in if i <? 0 then -1 else i + 1
  end.

(** [make([]byte, n)]: [n] zero bytes. *)
Definition make_bytes (n : Z) : list byte := repeat NUL (Z.to_nat n).

(** The capacity [Script] allocates for [options]: [BufferSize], or 8 KiB
    when it is zero. *)
Definition buffer_capacity (BufferSize : Z) : Z :=
  if BufferSize =? 0 then 1024 * 8 else BufferSize.

(** The buffer of [cap] zero bytes after the engine stored [stored] from its
    start. *)
Definition buffer_after (stored : list byte) (cap : Z) : list byte :=
  stored ++ drop (length stored) (make_bytes cap).

(** Go errors that the bridge creates or receives. *)
Inductive strconv_Err := ErrSyntax | ErrRange.

Inductive error :=
| errors_New (text : string)
| NumError (Func Num : string) (Err : strconv_Err)
| json_Error (text : string).

(** One line written by [log.Println(msg, err)]. *)
Inductive log_line := Println (msg : string) (err : error).

(** [type Event struct] *)
Record Event := mkEvent {
  Event_Window : Window;
  Event_EventType : Z;
  Event_Element : string;
  Event_Data : Data
}.

(** [type ScriptOptions struct] *)
Record ScriptOptions := mkScriptOptions {
  Timeout : Z;
  BufferSize : Z
}.

(** Events enum *)
Definition WEBUI_EVENT_DISCONNECTED : Z := 0.
Definition WEBUI_EVENT_CONNECTED : Z := 1.
Definition WEBUI_EVENT_MULTI_CONNECTION : Z := 2.
Definition WEBUI_EVENT_UNWANTED_CONNECTION : Z := 3.
Definition WEBUI_EVENT_MOUSE_CLICK : Z := 4.
Definition WEBUI_EVENT_NAVIGATION : Z := 5.
Definition WEBUI_EVENT_CALLBACK : Z := 6.

(** How a Go call ends.  A panic that nobody recovers ends the process; the
    engine writing outside the buffer it was given is undefined behaviour. *)
Inductive panic :=
| NilFuncCall        (* invalid memory address or nil pointer dereference *)
| NilMapAssign       (* assignment to entry in nil map *)
| SliceBounds (i : Z) (* slice bounds out of range [:i] *)
| IndexOutOfRange    (* index out of range [0] with length 0 *).

Inductive outcome (A : Type) :=
| Returns (a : A)
| Panics (p : panic)
| Undefined.
Arguments Returns {A} a.
Arguments Panics {A} p.
Arguments Undefined {A}.

(** ** The engine interface (webui.h) *)

(** A call the Go code makes into the engine, with the arguments it passes. *)
Inductive ccall :=
| call_new_window
| call_bind (win : Z) (element : list byte)
| call_get_bind_id (win : Z) (element : list byte)
| call_set_response (win event_number : Z) (response : list byte)
| call_script (win : Z) (script : list byte) (timeout : Z)
              (buffer : list byte) (buffer_length : Z).

(** The only call [Script] makes: the script as a C string, the timeout, a
    zeroed buffer of the capacity and the capacity. *)
Definition script_call (w : Z) (script : string) (options : ScriptOptions) : ccall :=
  let cap := buffer_capacity (BufferSize options) in
  call_script w (CString script) (Timeout options) (make_bytes cap) cap.

(** The engine: a state and the answers of its C functions.  [webui_script]
    answers its success flag and the bytes it stored from the start of the
    buffer.  [webui_encode] and [webui_decode] answer a fresh buffer or NULL. *)
Class WebUI (E : Type) := {
  webui_new_window : E -> Z * E;
  webui_bind : Z -> list byte -> E -> Z * E;
  webui_interface_get_bind_id : Z -> list byte -> E -> Z * E;
  webui_interface_set_response : Z -> Z -> list byte -> E -> E;
  webui_script : Z -> list byte -> Z -> list byte -> Z -> E -> (bool * list byte) * E;
  webui_encode : list byte -> option (list byte);
  webui_decode : list byte -> option (list byte)
}.

(** ** The bridge *)

Section Bridge.

(** [any]: the values a callback may return; [None] below is the nil
    interface.  [json_Marshal] is Go's [encoding/json.Marshal]. *)
Context {any : Type} (json_Marshal : any -> list byte * option error).
Context {E : Type} `{WebUI E}.

(** A non-nil [func(Event) any], as the value it returns for an event. *)
Definition callback : Type := Event -> option any.

(** The state the bridge runs in: the package variable [funcList], the
    engine, the calls made into the engine so far and the lines logged so
    far.  A window absent from [funcList] reads as the nil inner map; a
    [None] stored in an inner map is the nil func value. *)
Record World := mkWorld {
  funcList : gmap Z (gmap Z (option callback));
  engine : E;
  trace : list ccall;
  logged : list log_line
}.

Definition set_funcList (fl : gmap Z (gmap Z (option callback))) (σ : World) : World :=
  mkWorld fl (engine σ) (trace σ) (logged σ).

(** One C call: the engine moves on and the call is appended to the trace. *)
Definition called (c : ccall) (e' : E) (σ : World) : World :=
  mkWorld (funcList σ) e' (trace σ ++ [c]) (logged σ).

Definition log_Println (msg : string) (err : error) (σ : World) : World :=
  mkWorld (funcList σ) (engine σ) (trace σ) (logged σ ++ [Println msg err]).

(** [funcList[w][id]]: reading a missing key of a map, or any key of a nil
    map, gives the zero value, here the nil func. *)
Definition funcList_get (fl : gmap Z (gmap Z (option callback))) (w id : Z)
  : option callback :=
  match fl !! w with
  | None => None
  | Some m => match m !! id with
              | None => None
              | Some f => f
              end
  end.

(** The responses written to the engine, as (window, event number, text). *)
Fixpoint responses (t : list ccall) : list (Z * Z * list byte) :=
  match t with
  | [] => []
  | call_set_response w n r :: t' => (w, n, r) :: responses t'
  | _ :: t' => responses t'
  end.

(** The function id the engine answers for [(window, _element)] in [σ]. *)
Definition bound_id (window : Z) (_element : list byte) (σ : World) : Z :=
  uint (fst (webui_interface_get_bind_id window _element (engine σ))).

(** [func goWebuiEvent(window, _event_type, _element, _data, _event_number)] *)
Definition goWebuiEvent (window _event_type : Z) (_element _data : list byte)
    (_event_number : Z) (σ : World) : outcome unit * World :=
  let e := mkEvent (uint window) (uint _event_type)
                   (GoString _element) (GoString _data) in
  let '(id, eng1) := webui_interface_get_bind_id window _element (engine σ) in
  let funcId := uint id in
  let σ1 := called (call_get_bind_id window _element) eng1 σ in
  match funcList_get (funcList σ1) (uint window) funcId with
  | None => (Panics NilFuncCall, σ1)
  | Some f =>
      match f e with
      | None => (Returns tt, σ1)
      | Some result =>
          let '(jsonRes, err) := json_Marshal result in
          let σ2 := match err with
                    | Some err => log_Println "Failed encoding JS result into JSON" err σ1
                    | None => σ1
                    end in
          let response := CString (string_of_list_byte jsonRes) in
          (Returns tt,
           called (call_set_response window _event_number response)
                  (webui_interface_set_response window _event_number response (engine σ2))
                  σ2)
      end
  end.

(** [func (w Window) Script(script string, options ScriptOptions) (resp string, err error)]

    The engine answers the bytes it stored from [ptr] on; storing more than
    [buffer_length] bytes is outside the buffer.  Otherwise the stored bytes
    replace the start of the zeroed buffer. *)
Definition Window_Script (w : Window) (script : string) (options : ScriptOptions)
    (σ : World) : outcome (string * option error) * World :=
  let opts := mkScriptOptions (Timeout options)
                (if BufferSize options =? 0 then 1024 * 8 else BufferSize options) in
  let buffer := make_bytes (BufferSize opts) in
  match buffer with
  | [] => (Panics IndexOutOfRange, σ)
  | _ :: _ =>
      let '((ok, stored), eng1) :=
        webui_script w (CString script) (Timeout opts) buffer (BufferSize opts)
                     (engine σ) in
      let σ1 := called (call_script w (CString script) (Timeout opts) buffer
                                    (BufferSize opts)) eng1 σ in
      if (length buffer <? length stored)%nat then (Undefined, σ1)
      else
        let buffer := stored ++ drop (length stored) buffer in
        let err := if ok then None
                   else Some (errors_New "Failed running JavaScript.") in
        let respLen := IndexByte buffer NUL in
        if respLen <? 0 then (Panics (SliceBounds respLen), σ1)
        else (Returns (string_of_list_byte (take (Z.to_nat respLen) buffer), err), σ1)
  end.

(** [func Encode(str string) string] *)
Definition Encode (str : string) : string :=
  GoString_ptr (webui_encode (CString str)).

(** [func Decode(str string) string] *)
Definition Decode (str : string) : string :=
  GoString_ptr (webui_decode (CString str)).

(** [func NewWindow() Window] *)
Definition NewWindow (σ : World) : Window * World :=
  let '(h, eng1) := webui_new_window (engine σ) in
  let w := uint h in
  let σ1 := called call_new_window eng1 σ in
  (w, set_funcList (<[w := ∅]> (funcList σ1)) σ1).

(** [func (w Window) Bind(element string, callback func(Event) any)]

    [funcList[w][funcId] = callback] assigns into the inner map that
    [funcList[w]] reads; for a window without one that is the nil map and
    the assignment panics.  [callback] may be the nil func. *)
Definition Window_Bind (w : Window) (element : string) (cb : option callback)
    (σ : World) : outcome unit * World :=
  let '(id, eng1) := webui_bind w (CString element) (engine σ) in
  let funcId := uint id in
  let σ1 := called (call_bind w (CString element)) eng1 σ in
  match funcList σ1 !! w with
  | None => (Panics NilMapAssign, σ1)
  | Some m => (Returns tt, set_funcList (<[w := <[funcId := cb]> m]> (funcList σ1)) σ1)
  end.

(** The function id the engine answers to [w.Bind(element, _)] in [σ]. *)
Definition bind_id (w : Window) (element : string) (σ : World) : Z :=
  uint (fst (webui_bind w (CString element) (engine σ))).

(** The state of a process that has just started: [funcList] is the empty
    map that [make] built, nothing was called, nothing was logged. *)
Definition init_world (eng : E) : World := mkWorld ∅ eng [] [].

(** What an application and the engine can do to the bridge, one step at
    a time. *)
Inductive op :=
| op_NewWindow
| op_Bind (w : Window) (element : string) (cb : option callback)
| op_Event (window _event_type : Z) (_element _data : list byte) (_event_number : Z).

(** Runs the steps in order and collects the windows [NewWindow] returned;
    [None] when a step did not return. *)
Fixpoint run_ops (ops : list op) (σ : World) (created : gset Z)
  : option (World * gset Z) :=
  match ops with
  | [] => Some (σ, created)
  | op_NewWindow :: ops' =>
      let '(w, σ') := NewWindow σ in run_ops ops' σ' ({[w]} ∪ created)
  | op_Bind w element cb :: ops' =>
      match Window_Bind w element cb σ with
      | (Returns _, σ') => run_ops ops' σ' created
      | _ => None
      end
  | op_Event w t el d n :: ops' =>
      match goWebuiEvent w t el d n σ with
      | (Returns _, σ') => run_ops ops' σ' created
      | _ => None
      end
  end.

(** Modelled from the spec: the engine's [webui_encode] and [webui_decode]
    are missing from the sources; the spec makes them inverse, lossless
    transforms of text (4.5, 6).  On C strings: a text without NUL is
    encoded to a text without NUL, which decodes to the first. *)
Definition codec_inverse : Prop :=
  ∀ t : list byte, NUL ∉ t →
    ∃ t' : list byte, (NUL ∉ t') ∧
      webui_encode (t ++ [NUL]) = Some (t' ++ [NUL]) ∧
      webui_decode (t' ++ [NUL]) = Some (t ++ [NUL]).

End Bridge.

(** ** strconv, as the Go standard library documents it

    [int] has 64 bits on the targets of the cgo flags.  [Atoi(s)] is
    [ParseInt(s, 10, 0)] converted to [int]; base 10 accepts an optional sign
    and decimal digits only. *)

Definition intSize : Z := 64.
Definition maxUint64 : Z := 2 ^ 64 - 1.

(** [int64(z)] *)
Definition int64 (z : Z) : Z := (z + 2 ^ 63) mod 2 ^ 64 - 2 ^ 63.

(** The loop of [ParseUint(s, 10, 64)] from the accumulator [n]: a byte that
    is not a digit is a syntax error with value 0; an overflow ends the loop
    at once with the largest value and a range error. *)
Fixpoint ParseUint_loop (cs : list byte) (n : Z) : Z * option strconv_Err :=
  match cs with
  | [] => (n, None)
  | c :: cs' =>
      let c := Z.of_N (Byte.to_N c) in
      if (48 <=? c) && (c <=? 57) then
        let d := c - 48 in
        if maxUint64 / 10 + 1 <=? n then (maxUint64, Some ErrRange)
        else
          let n := n * 10 in
          let n1 := (n + d) mod 2 ^ 64 in
          if (n1 <? n) || (maxUint64 <? n1) then (maxUint64, Some ErrRange)
          else ParseUint_loop cs' n1
      else (0, Some ErrSyntax)
  end.

(** [ParseUint(s, 10, 64)] *)
Definition ParseUint (s : list byte) : Z * option strconv_Err :=
  match s with
  | [] => (0, Some ErrSyntax)
  | _ :: _ => ParseUint_loop s 0
  end.

(** [ParseInt(s, 10, 0)]; [x2b] is '+', [x2d] is '-'. *)
Definition ParseInt (s : list byte) : Z * option strconv_Err :=
  match s with
  | [] => (0, Some ErrSyntax)
  | c :: s' =>
      let neg := Byte.eqb c x2d in
      let body := if Byte.eqb c x2b || neg then s' else s in
      match ParseUint body with
      | (_, Some ErrSyntax) => (0, Some ErrSyntax)
      | (un, _) =>
          let cutoff := 2 ^ (intSize - 1) in
          if negb neg && (cutoff <=? un) then (cutoff - 1, Some ErrRange)
          else if neg && (cutoff <? un) then (- cutoff, Some ErrRange)
          else
            let n := int64 un in
            (if neg then int64 (- n) else n, None)
      end
  end.

(** [strconv.Atoi(s)] *)
Definition Atoi (s : string) : Z * option error :=
  let '(n, err) := ParseInt (list_byte_of_string s) in
  (n, option_map (NumError "Atoi" s) err).

(** [strconv.ParseBool(str)] *)
Definition ParseBool (str : string) : bool * option error :=
  if existsb (String.eqb str) ["1"; "t"; "T"; "true"; "TRUE"; "True"]%string
  then (true, None)
  else if existsb (String.eqb str) ["0"; "f"; "F"; "false"; "FALSE"; "False"]%string
  then (false, None)
  else (false, Some (NumError "ParseBool" str ErrSyntax)).

(** ** The accessors of [Data]; each answers its value and the lines it logs *)

(** [func (d Data) String() string] *)
Definition Data_String (d : Data) : string := d.

(** [func (d Data) Int() int] *)
Definition Data_Int (d : Data) : Z * list log_line :=
  let '(num, err) := Atoi d in
  (num,
   match err with
   | Some err => [Println "Failed getting event int argument" err]
   | None => []
   end).

(** [func (d Data) Bool() bool] *)
Definition Data_Bool (d : Data) : bool * list log_line :=
  let '(boolVal, err) := ParseBool d in
  (boolVal,
   match err with
   | Some err => [Println "Failed getting event bool argument" err]
   | None => []
   end).

(** The number a list of decimal digits writes, from the accumulator [n]. *)
Definition is_digit (c : byte) : Prop :=
  48 <= Z.of_N (Byte.to_N c) <= 57.

Fixpoint decimal_from (n : Z) (ds : list byte) : Z :=
  match ds with
  | [] => n
  | c :: ds' => decimal_from (n * 10 + (Z.of_N (Byte.to_N c) - 48)) ds'
  end.

Definition decimal (ds : list byte) : Z := decimal_from 0 ds.

(** ** A reference engine

    Modelled from the spec: the engine is missing from the sources.  This one
    follows the engine ABI of section 6: window handles are handed out in
    order, an element bound on a window gets a function id that later
    lookups answer, a script's reply is copied into the caller's buffer
    truncated to its capacity less one and ended by the sentinel, and
    encode/decode are a hexadecimal codec. *)

Record ref_engine := mkRef {
  ref_windows : Z;
  ref_binds : list (Z * list byte * Z);
  ref_script_ok : bool;
  ref_script_reply : list byte
}.

Fixpoint bytes_eqb (a b : list byte) : bool :=
  match a, b with
  | [], [] => true
  | x :: a', y :: b' => Byte.eqb x y && bytes_eqb a' b'
  | _, _ => false
  end.

Fixpoint ref_find (binds : list (Z * list byte * Z)) (w : Z) (el : list byte)
  : option Z :=
  match binds with
  | [] => None
  | (w', el', id) :: binds' =>
      if (w' =? w) && bytes_eqb el' el then Some id else ref_find binds' w el
  end.

Definition ref_bind (w : Z) (element : list byte) (e : ref_engine) : Z * ref_engine :=
  match ref_find (ref_binds e) w (c_text element) with
  | Some id => (id, e)
  | None =>
      let id := Z.of_nat (length (ref_binds e)) + 1 in
      (id, mkRef (ref_windows e) ((w, c_text element, id) :: ref_binds e)
                 (ref_script_ok e) (ref_script_reply e))
  end.

Definition ref_get_bind_id (w : Z) (element : list byte) (e : ref_engine)
  : Z * ref_engine :=
  (default 0 (ref_find (ref_binds e) w (c_text element)), e).

Definition ref_new_window (e : ref_engine) : Z * ref_engine :=
  (ref_windows e + 1,
   mkRef (ref_windows e + 1) (ref_binds e) (ref_script_ok e) (ref_script_reply e)).

(** The reply as the engine stores it in a buffer of [cap] bytes. *)
Definition truncated_reply (cap : Z) (reply : list byte) : list byte :=
  take (Z.to_nat (cap - 1)) reply ++ [NUL].

Definition ref_script (w : Z) (script : list byte) (timeout : Z)
    (buffer : list byte) (cap : Z) (e : ref_engine) : (bool * list byte) * ref_engine :=
  ((ref_script_ok e, truncated_reply cap (ref_script_reply e)), e).

Definition hex_digit (n : N) : byte :=
  default x00 (Byte.of_N (if (n <? 10)%N then 48 + n else 87 + n)%N).

Definition hex_value (b : byte) : N :=
  let c := Byte.to_N b in if (c <? 58)%N then (c - 48)%N else (c - 87)%N.

Fixpoint hex_encode (t : list byte) : list byte :=
  match t with
  | [] => []
  | b :: t' =>
      hex_digit (Byte.to_N b / 16) :: hex_digit (Byte.to_N b mod 16) :: hex_encode t'
  end.

Fixpoint hex_decode (t : list byte) : list byte :=
  match t with
  | hi :: lo :: t' =>
      default x00 (Byte.of_N (hex_value hi * 16 + hex_value lo)) :: hex_decode t'
  | _ => []
  end.

#[export] Instance ref_WebUI : WebUI ref_engine := {|
  webui_new_window := ref_new_window;
  webui_bind := ref_bind;
  webui_interface_get_bind_id := ref_get_bind_id;
  webui_interface_set_response := fun _ _ _ e => e;
  webui_script := ref_script;
  webui_encode := fun p => Some (hex_encode (c_text p) ++ [NUL]);
  webui_decode := fun p => Some (hex_decode (c_text p) ++ [NUL])
|}.

(** A few Go values and what [json.Marshal] answers for them: a channel has
    no JSON encoding. *)
Inductive go_value :=
| go_bool (b : bool)
| go_nil_pointer
| go_chan.

Definition go_Marshal (v : go_value) : list byte * option error :=
  match v with
  | go_bool true => (list_byte_of_string "true", None)
  | go_bool false => (list_byte_of_string "false", None)
  | go_nil_pointer => (list_byte_of_string "null", None)
  | go_chan => ([], Some (json_Error "json: unsupported type: chan int"))
  end.

(** The engine of the examples: no window yet, and a browser that answers
    every script with the text [reply]. *)
Definition ref_start (ok : bool) (reply : string) : ref_engine :=
  mkRef 0 [] ok (list_byte_of_string reply).

(** ** The worlds of the examples *)

(** A callback that answers by the event's data: nothing for the empty
    payload, a channel for "chan", [true] otherwise. *)
Definition demo_callback : callback (any := go_value) :=
  fun e =>
    if String.eqb (Event_Data e) EmptyString then None
    else if String.eqb (Event_Data e) "chan" then Some go_chan
    else Some (go_bool true).

(** A fresh process, then [w := NewWindow()], then [w.Bind("submit", cb)]. *)
Definition demo_world0 : World (any := go_value) :=
  init_world (ref_start false "hello world").

Definition demo_world1 : World := snd (NewWindow demo_world0).

Definition demo_world2 : World :=
  snd (Window_Bind 1 "submit" (Some demo_callback) demo_world1).

(** A text with a NUL byte in the middle: "a", NUL, "b". *)
Definition text_with_NUL : string :=
  String "a" (String "000" (String "b" EmptyString)).

(** ** The rest of the public API: control of windows and of the engine

    [Run], [SetRuntime], [IsShown], [Close], [SetTimeout], [SetMultiAccess],
    [Exit], [Show] and [ShowBrowser] each make one call into the engine and
    touch nothing else.  [Wait] blocks while the engine dispatches events
    from its own threads and is left out. *)

(** [type Browser uint8] and its constants *)
Definition AnyBrowser : Z := 0.
Definition Chrome : Z := 1.
Definition Firefox : Z := 2.
Definition Edge : Z := 3.
Definition Safari : Z := 4.
Definition Chromium : Z := 5.
Definition Opera : Z := 6.
Definition Brave : Z := 7.
Definition Vivaldi : Z := 8.
Definition Epic : Z := 9.
Definition Yandex : Z := 10.

(** [type Runtime uint8] and its constants; [Runtime_None] is Go's [None]. *)
Definition Runtime_None : Z := 0.
Definition Deno : Z := 1.
Definition Nodejs : Z := 2.

(** The control functions of the engine and the calls the Go code makes to
    them, with their arguments. *)
Class WebUI_control (E : Type) := {
  webui_run : Z -> list byte -> E -> E;
  webui_set_runtime : Z -> Z -> E -> E;
  webui_is_shown : Z -> E -> bool * E;
  webui_close : Z -> E -> E;
  webui_set_timeout : Z -> E -> E;
  webui_set_multi_access : Z -> bool -> E -> E;
  webui_exit : E -> E;
  webui_show : Z -> list byte -> E -> E;
  webui_show_browser : Z -> list byte -> Z -> E -> E
}.

Inductive control_call :=
| call_run (win : Z) (script : list byte)
| call_set_runtime (win runtime : Z)
| call_is_shown (win : Z)
| call_close (win : Z)
| call_set_timeout (seconds : Z)
| call_set_multi_access (win : Z) (access : bool)
| call_exit
| call_show (win : Z) (content : list byte)
| call_show_browser (win : Z) (content : list byte) (browser : Z).

Section Control.

Context {any : Type} {E : Type} `{WebUI E} `{WebUI_control E}.

(** A process: the world of the bridge and the control calls made so far. *)
Record Process := mkProcess {
  world : World (any := any) (E := E);
  control : list control_call
}.

(** One control call: the engine moves on, the call is appended. *)
Definition controlled (c : control_call) (e' : E) (p : Process) : Process :=
  mkProcess (mkWorld (funcList (world p)) e' (trace (world p)) (logged (world p)))
            (control p ++ [c]).

(** [func (w Window) Run(script string)] *)
Definition Window_Run (w : Window) (script : string) (p : Process) : Process :=
  controlled (call_run w (CString script))
             (webui_run w (CString script) (engine (world p))) p.

(** [func (w Window) SetRuntime(runtime Runtime)] *)
Definition Window_SetRuntime (w : Window) (runtime : Z) (p : Process) : Process :=
  controlled (call_set_runtime w runtime)
             (webui_set_runtime w runtime (engine (world p))) p.

(** [func (w Window) IsShown() bool] *)
Definition Window_IsShown (w : Window) (p : Process) : bool * Process :=
  let '(status, eng1) := webui_is_shown w (engine (world p)) in
  (status, controlled (call_is_shown w) eng1 p).

(** [func (w Window) Close()] *)
Definition Window_Close (w : Window) (p : Process) : Process :=
  controlled (call_close w) (webui_close w (engine (world p))) p.

(** [func SetTimeout(seconds uint)] *)
Definition SetTimeout (seconds : Z) (p : Process) : Process :=
  controlled (call_set_timeout seconds)
             (webui_set_timeout seconds (engine (world p))) p.

(** [func (w Window) SetMultiAccess(access bool)] *)
Definition Window_SetMultiAccess (w : Window) (access : bool) (p : Process)
  : Process :=
  controlled (call_set_multi_access w access)
             (webui_set_multi_access w access (engine (world p))) p.

(** [func Exit()] *)
Definition Exit (p : Process) : Process :=
  controlled call_exit (webui_exit (engine (world p))) p.

(** [func (w Window) Show(content string)] *)
Definition Window_Show (w : Window) (content : string) (p : Process) : Process :=
  controlled (call_show w (CString content))
             (webui_show w (CString content) (engine (world p))) p.

(** [func (w Window) ShowBrowser(content string, browser Browser)] *)
Definition Window_ShowBrowser (w : Window) (content : string) (browser : Z)
    (p : Process) : Process :=
  controlled (call_show_browser w (CString content) browser)
             (webui_show_browser w (CString content) browser (engine (world p))) p.

(** The control functions as steps of an application. *)
Inductive control_op :=
| op_Run (w : Window) (script : string)
| op_SetRuntime (w : Window) (runtime : Z)
| op_IsShown (w : Window)
| op_Close (w : Window)
| op_SetTimeout (seconds : Z)
| op_SetMultiAccess (w : Window) (access : bool)
| op_Exit
| op_Show (w : Window) (content : string)
| op_ShowBrowser (w : Window) (content : string) (browser : Z).

Definition control_step (o : control_op) (p : Process) : Process :=
  match o with
  | op_Run w script => Window_Run w script p
  | op_SetRuntime w runtime => Window_SetRuntime w runtime p
  | op_IsShown w => snd (Window_IsShown w p)
  | op_Close w => Window_Close w p
  | op_SetTimeout seconds => SetTimeout seconds p
  | op_SetMultiAccess w access => Window_SetMultiAccess w access p
  | op_Exit => Exit p
  | op_Show w content => Window_Show w content p
  | op_ShowBrowser w content browser => Window_ShowBrowser w content browser p
  end.

Definition run_control (os : list control_op) (p : Process) : Process :=
  fold_left (fun p o => control_step o p) os p.

End Control.


(** The reference engine's control functions: a window is shown once it was
    handed out; nothing else is kept. *)
#[export] Instance ref_WebUI_control : WebUI_control ref_engine := {|
  webui_run := fun _ _ e => e;
  webui_set_runtime := fun _ _ e => e;
  webui_is_shown := fun w e => ((1 <=? w) && (w <=? ref_windows e), e);
  webui_close := fun _ e => e;
  webui_set_timeout := fun _ e => e;
  webui_set_multi_access := fun _ _ e => e;
  webui_exit := fun e => e;
  webui_show := fun _ _ e => e;
  webui_show_browser := fun _ _ _ e => e
|}.

(** ** An engine that copies without room for the sentinel

    A second engine for the examples: [webui_script] copies the reply and
    its terminator, but the first [cap] bytes only, so a reply of [cap]
    bytes or more arrives without sentinel.  Its state is the reply. *)
Record raw_engine := mkRaw { raw_reply : list byte }.

#[export] Instance raw_WebUI : WebUI raw_engine := {|
  webui_new_window := fun e => (1, e);
  webui_bind := fun _ _ e => (1, e);
  webui_interface_get_bind_id := fun _ _ e => (1, e);
  webui_interface_set_response := fun _ _ _ e => e;
  webui_script := fun _ _ _ _ cap e =>
    ((true, take (Z.to_nat cap) (raw_reply e ++ [NUL])), e);
  webui_encode := fun _ => None;
  webui_decode := fun _ => None
|}.


(** A second callback, and the table of [demo_world2] with it bound on
    window 2 under the id that "submit" has on window 1. *)
Definition other_callback : callback (any := go_value) :=
  fun _ => Some go_nil_pointer.

Definition demo_table_two_windows : gmap Z (gmap Z (option (callback (any := go_value)))) :=
  <[2 := {[1 := Some other_callback]}]> (funcList demo_world2).

(** The process of the examples: [demo_world2] and no control call yet. *)
Definition demo_process : Process := mkProcess demo_world2 [].

(** * Properties *)

(** ** The trace and the dispatcher *)

Lemma responses_app (t1 t2 : list ccall) :
  responses t1 ++ responses t2 = responses (t1 ++ t2).
Proof.
  induction t1 as [|c t1 IH]; simpl; [reflexivity|].
  destruct c; simpl; rewrite <- ?IH; reflexivity.
Qed.

Section Dispatch.

Context {any : Type} (json_Marshal : any -> list byte * option error).
Context {E : Type} `{WebUI E}.

Implicit Types (σ : World (any := any) (E := E)).

(** C1, as the code has it: a dispatch for a (window, function id) that
    has no callback calls the nil func: it panics right after the engine
    was asked for the id.  No response was written, nothing was logged and
    [funcList] is as before. *)
Theorem goWebuiEvent_unregistered window _event_type _element _data _event_number σ :
  funcList_get (funcList σ) (uint window) (bound_id window _element σ) = None →
  ∃ σ', goWebuiEvent json_Marshal window _event_type _element _data _event_number σ
          = (Panics NilFuncCall, σ')
        ∧ trace σ' = trace σ ++ [call_get_bind_id window _element]
        ∧ responses (trace σ') = responses (trace σ)
        ∧ logged σ' = logged σ
        ∧ funcList σ' = funcList σ.
Proof.
  unfold goWebuiEvent, bound_id.
  destruct (webui_interface_get_bind_id window _element (engine σ)) as [id eng1].
  simpl. intros ->. eexists. split; [reflexivity|]. simpl.
  rewrite <- responses_app. simpl. rewrite app_nil_r. auto.
Qed.

(** C2: a dispatch for a registered callback returns.  When the callback
    answers nil no response is written; when it answers a value [v], one
    response is written: the JSON bytes [json.Marshal] gave for [v], as a
    C string, for this window and this event number. *)
Theorem goWebuiEvent_registered window _event_type _element _data _event_number σ f :
  funcList_get (funcList σ) (uint window) (bound_id window _element σ) = Some f →
  let e := mkEvent (uint window) (uint _event_type)
                   (GoString _element) (GoString _data) in
  (f e = None →
     ∃ σ', goWebuiEvent json_Marshal window _event_type _element _data _event_number σ
             = (Returns tt, σ')
           ∧ responses (trace σ') = responses (trace σ))
  ∧ (∀ v, f e = Some v →
     ∃ σ', goWebuiEvent json_Marshal window _event_type _element _data _event_number σ
             = (Returns tt, σ')
           ∧ responses (trace σ')
             = responses (trace σ)
               ++ [(window, _event_number,
                    CString (string_of_list_byte (fst (json_Marshal v))))]).
Proof.
  unfold goWebuiEvent, bound_id.
  destruct (webui_interface_get_bind_id window _element (engine σ)) as [id eng1].
  simpl. intros ->. split.
  - intros ->. eexists. split; [reflexivity|]. simpl.
    rewrite <- responses_app. simpl. apply app_nil_r.
  - intros v ->. destruct (json_Marshal v) as [jsonRes err].
    eexists. split; [reflexivity|]. simpl.
    destruct err; simpl; rewrite <- !responses_app; simpl;
      rewrite app_nil_r; reflexivity.
Qed.

(** C3: when [json.Marshal] fails on the callback's value, the failure is
    logged, the dispatch returns, and a response is still written for the
    event number: the bytes [json.Marshal] gave back, as a C string. *)
Theorem goWebuiEvent_marshal_failure
    window _event_type _element _data _event_number σ f v jsonRes err :
  funcList_get (funcList σ) (uint window) (bound_id window _element σ) = Some f →
  f (mkEvent (uint window) (uint _event_type) (GoString _element) (GoString _data))
    = Some v →
  json_Marshal v = (jsonRes, Some err) →
  ∃ σ', goWebuiEvent json_Marshal window _event_type _element _data _event_number σ
          = (Returns tt, σ')
        ∧ logged σ' = logged σ ++ [Println "Failed encoding JS result into JSON" err]
        ∧ responses (trace σ')
          = responses (trace σ)
            ++ [(window, _event_number, CString (string_of_list_byte jsonRes))].
Proof.
  unfold goWebuiEvent, bound_id.
  destruct (webui_interface_get_bind_id window _element (engine σ)) as [id eng1].
  simpl. intros -> -> ->. eexists. split; [reflexivity|]. simpl.
  rewrite <- !responses_app. simpl. rewrite app_nil_r. auto.
Qed.

End Dispatch.

(** ** NewWindow and Bind *)

Section Binding.

Context {any : Type} (json_Marshal : any -> list byte * option error).
Context {E : Type} `{WebUI E}.

Implicit Types (σ : World (any := any) (E := E)).

Lemma Window_Bind_inner_map w element cb σ m :
  funcList σ !! w = Some m →
  ∃ σ', Window_Bind w element cb σ = (Returns tt, σ')
        ∧ funcList σ' = <[w := <[bind_id w element σ := cb]> m]> (funcList σ)
        ∧ logged σ' = logged σ.
Proof.
  intros Hm. unfold Window_Bind, bind_id.
  destruct (webui_bind w (CString element) (engine σ)) as [id eng1].
  simpl. rewrite Hm. eexists. split; [reflexivity|]. simpl. auto.
Qed.

Lemma Window_Bind_nil_map w element cb σ :
  funcList σ !! w = None →
  ∃ σ', Window_Bind w element cb σ = (Panics NilMapAssign, σ')
        ∧ funcList σ' = funcList σ.
Proof.
  intros Hm. unfold Window_Bind.
  destruct (webui_bind w (CString element) (engine σ)) as [id eng1].
  simpl. rewrite Hm. eexists. split; reflexivity.
Qed.

Lemma NewWindow_inner_map σ :
  funcList (snd (NewWindow σ)) !! fst (NewWindow σ) = Some ∅.
Proof.
  unfold NewWindow. destruct (webui_new_window (engine σ)) as [h eng1].
  simpl. apply lookup_insert_eq.
Qed.

Lemma NewWindow_other σ w :
  w ≠ fst (NewWindow σ) →
  funcList (snd (NewWindow σ)) !! w = funcList σ !! w.
Proof.
  unfold NewWindow. destruct (webui_new_window (engine σ)) as [h eng1].
  simpl. intros Hne. by apply lookup_insert_ne.
Qed.

Lemma goWebuiEvent_funcList window t el d n σ :
  funcList (snd (goWebuiEvent json_Marshal window t el d n σ)) = funcList σ.
Proof.
  unfold goWebuiEvent.
  destruct (webui_interface_get_bind_id window el (engine σ)) as [id eng1].
  simpl. destruct (funcList_get _ _ _) as [f|]; [|reflexivity].
  destruct (f _) as [v|]; [|reflexivity].
  destruct (json_Marshal v) as [jsonRes [err|]]; reflexivity.
Qed.

(** The windows that have an inner map are the windows [NewWindow]
    returned: every step keeps it so. *)
Lemma run_ops_created ops : ∀ σ0 created0 σ created,
  (∀ w, w ∈ created0 ↔ is_Some (funcList σ0 !! w)) →
  run_ops json_Marshal ops σ0 created0 = Some (σ, created) →
  ∀ w, w ∈ created ↔ is_Some (funcList σ !! w).
Proof.
  induction ops as [|o ops IH]; intros σ0 created0 σ created Hinv Hrun.
  - simpl in Hrun. by simplify_eq.
  - destruct o as [|w0 element cb|w0 t el d n]; simpl in Hrun.
    + destruct (NewWindow σ0) as [w1 σ1] eqn:Hnew.
      eapply IH; [|exact Hrun].
      intros w. pose proof (NewWindow_inner_map σ0) as Hw1.
      pose proof (NewWindow_other σ0 w) as Hother.
      rewrite Hnew in Hw1, Hother. simpl in Hw1, Hother.
      destruct (decide (w = w1)) as [->|Hne].
      * rewrite Hw1. split; [eauto|].
        intros _. apply elem_of_union. left. by apply elem_of_singleton.
      * rewrite Hother by done. rewrite <- Hinv.
        rewrite elem_of_union, elem_of_singleton. tauto.
    + destruct (Window_Bind w0 element cb σ0) as [[[]|p|] σ1] eqn:Hbind;
        try discriminate.
      eapply IH; [|exact Hrun].
      intros w. rewrite Hinv.
      destruct (funcList σ0 !! w0) as [m|] eqn:Hm.
      * destruct (Window_Bind_inner_map w0 element cb σ0 m Hm) as (σ' & Heq & Hfl & _).
        rewrite Hbind in Heq. simplify_eq. rewrite Hfl.
        destruct (decide (w = w0)) as [->|Hne].
        -- rewrite lookup_insert_eq, Hm. split; eauto.
        -- by rewrite lookup_insert_ne.
      * destruct (Window_Bind_nil_map w0 element cb σ0 Hm) as (σ' & Heq & _).
        rewrite Hbind in Heq. discriminate.
    + pose proof (goWebuiEvent_funcList w0 t el d n σ0) as Hfl.
      destruct (goWebuiEvent json_Marshal w0 t el d n σ0) as [[[]|p|] σ1];
        try discriminate.
      eapply IH; [|exact Hrun].
      intros w. simpl in Hfl. rewrite Hfl. apply Hinv.
Qed.

(** C4, as the code has it: [Bind] has no result, so nothing the engine
    answers is surfaced as an error.  Whatever id the engine answers, the
    callback is stored under it in the inner map of [w] and [Bind] returns;
    [Bind] fails, with a panic, exactly for a window without inner map. *)
Theorem Window_Bind_outcome w element cb σ :
  (∀ m, funcList σ !! w = Some m →
     ∃ σ', Window_Bind w element cb σ = (Returns tt, σ')
           ∧ funcList σ' = <[w := <[bind_id w element σ := cb]> m]> (funcList σ)
           ∧ logged σ' = logged σ)
  ∧ (funcList σ !! w = None →
     ∃ σ', Window_Bind w element cb σ = (Panics NilMapAssign, σ')
           ∧ funcList σ' = funcList σ).
Proof.
  split.
  - intros m Hm. by apply Window_Bind_inner_map.
  - intros Hm. by apply Window_Bind_nil_map.
Qed.

(** C10: [NewWindow] gives its window an empty, non-nil inner map.  In
    every state a process reaches by [NewWindow], [Bind] and dispatches,
    the windows with an inner map are those [NewWindow] returned: [Bind]
    returns on them and panics on the assignment for every other window. *)
Theorem Window_Bind_needs_NewWindow eng ops σ created :
  run_ops json_Marshal ops (init_world eng) ∅ = Some (σ, created) →
  (∀ σ0 : World (any := any) (E := E),
     funcList (snd (NewWindow σ0)) !! fst (NewWindow σ0) = Some ∅)
  ∧ ∀ w element cb,
      (w ∈ created → ∃ σ', Window_Bind w element cb σ = (Returns tt, σ'))
      ∧ (w ∉ created →
         ∃ σ', Window_Bind w element cb σ = (Panics NilMapAssign, σ')).
Proof.
  intros Hrun. split; [apply NewWindow_inner_map|].
  assert (Hinv : ∀ w, w ∈ created ↔ is_Some (funcList σ !! w)).
  { eapply run_ops_created; [|exact Hrun].
    intros w. simpl. rewrite lookup_empty. split.
    - intros Hw. by apply not_elem_of_empty in Hw.
    - intros [? ?]; discriminate. }
  intros w element cb. split; intros Hw.
  - apply Hinv in Hw as [m Hm].
    destruct (Window_Bind_inner_map w element cb σ m Hm) as (σ' & Heq & _).
    eauto.
  - assert (Hm : funcList σ !! w = None).
    { destruct (funcList σ !! w) eqn:Hm; [|reflexivity].
      exfalso. apply Hw, Hinv. eauto. }
    destruct (Window_Bind_nil_map w element cb σ Hm) as (σ' & Heq & _).
    eauto.
Qed.

End Binding.

(** ** C strings and buffers *)

Lemma eqb_NUL b : Byte.eqb b NUL = true ↔ b = NUL.
Proof. split; [apply Byte.byte_dec_bl | apply Byte.byte_dec_lb]. Qed.

Lemma c_text_sentinel p rest : NUL ∉ p → c_text (p ++ NUL :: rest) = p.
Proof.
  induction p as [|b p IH]; intros Hp; simpl; [reflexivity|].
  apply not_elem_of_cons in Hp as [Hb Hp].
  destruct (Byte.eqb b NUL) eqn:Heq.
  - apply eqb_NUL in Heq. congruence.
  - by rewrite IH.
Qed.

Lemma c_text_no_NUL p : NUL ∉ c_text p.
Proof.
  induction p as [|b p IH]; simpl; [apply not_elem_of_nil|].
  destruct (Byte.eqb b NUL) eqn:Heq; [apply not_elem_of_nil|].
  apply not_elem_of_cons. split; [|exact IH].
  intros Hb. symmetry in Hb. apply eqb_NUL in Hb. congruence.
Qed.



Lemma length_make_bytes n : length (make_bytes n) = Z.to_nat n.
Proof. apply repeat_length. Qed.

Lemma length_string_of_list_byte l :
  String.length (string_of_list_byte l) = length l.
Proof.
  unfold string_of_list_byte.
  induction l as [|b l IH]; simpl; [reflexivity|]. by rewrite IH.
Qed.

(** ** Script *)

Section Scripts.

Context {any : Type} {E : Type} `{WebUI E}.

Implicit Types (σ : World (any := any) (E := E)).

Lemma buffer_capacity_pos n : 0 <= n → 0 < buffer_capacity n.
Proof. unfold buffer_capacity. destruct (n =? 0) eqn:Hn; lia. Qed.







End Scripts.

(** ** Encode and Decode *)

Lemma GoString_sentinel t :
  NUL ∉ t → GoString (t ++ [NUL]) = string_of_list_byte t.
Proof. intros Ht. unfold GoString. by rewrite c_text_sentinel. Qed.

Lemma GoString_ptr_no_NUL p : NUL ∉ list_byte_of_string (GoString_ptr p).
Proof.
  destruct p as [buf|]; simpl.
  - unfold GoString. rewrite list_byte_of_string_of_list_byte. apply c_text_no_NUL.
  - apply not_elem_of_nil.
Qed.

Section Codec.

Context {E : Type} `{WebUI E}.

(** [Decode] never answers a text with a NUL byte: [C.GoString] stops at
    the first one. *)
Lemma Decode_no_NUL str : NUL ∉ list_byte_of_string (Decode str).
Proof. apply GoString_ptr_no_NUL. Qed.

(** C8, as the code has it: for an engine whose encode and decode are
    inverse on C strings, [Decode (Encode s) = s] for every string [s]
    without NUL byte, the empty string included. *)
Theorem Decode_Encode s :
  codec_inverse →
  NUL ∉ list_byte_of_string s →
  Decode (Encode s) = s.
Proof.
  intros Hinv Hs.
  destruct (Hinv (list_byte_of_string s) Hs) as (t' & Ht' & Henc & Hdec).
  unfold Encode, CString. rewrite Henc. cbn [GoString_ptr].
  rewrite GoString_sentinel by done.
  unfold Decode, CString. rewrite list_byte_of_string_of_list_byte, Hdec.
  cbn [GoString_ptr]. rewrite GoString_sentinel by done.
  apply string_of_list_byte_of_string.
Qed.

End Codec.

(** The hexadecimal codec of the reference engine is inverse on C strings. *)

Lemma hex_byte b :
  hex_digit (Byte.to_N b / 16) ≠ NUL
  ∧ hex_digit (Byte.to_N b mod 16) ≠ NUL
  ∧ Byte.of_N (hex_value (hex_digit (Byte.to_N b / 16)) * 16
               + hex_value (hex_digit (Byte.to_N b mod 16))) = Some b.
Proof. destruct b; vm_compute; repeat split; discriminate. Qed.

Lemma hex_encode_no_NUL t : NUL ∉ hex_encode t.
Proof.
  induction t as [|b t IH]; simpl; [apply not_elem_of_nil|].
  destruct (hex_byte b) as (Hhi & Hlo & _).
  rewrite !not_elem_of_cons. auto.
Qed.

Lemma hex_decode_encode t : hex_decode (hex_encode t) = t.
Proof.
  induction t as [|b t IH]; simpl; [reflexivity|].
  destruct (hex_byte b) as (_ & _ & Hb). rewrite Hb, IH. reflexivity.
Qed.

Lemma ref_codec_inverse : codec_inverse (E := ref_engine).
Proof.
  intros t Ht. exists (hex_encode t). split; [apply hex_encode_no_NUL|].
  simpl. rewrite !c_text_sentinel by (done || apply hex_encode_no_NUL).
  by rewrite hex_decode_encode.
Qed.

(** ** strconv and the accessors of [Data] *)

Lemma maxUint64_val : maxUint64 = 18446744073709551615.
Proof. reflexivity. Qed.

Lemma ParseUint_loop_cons c cs n :
  ParseUint_loop (c :: cs) n
  = let z := Z.of_N (Byte.to_N c) in
    if (48 <=? z) && (z <=? 57) then
      if 1844674407370955162 <=? n then (maxUint64, Some ErrRange)
      else
        if ((n * 10 + (z - 48)) mod 18446744073709551616 <? n * 10)
           || (maxUint64 <? (n * 10 + (z - 48)) mod 18446744073709551616)
        then (maxUint64, Some ErrRange)
        else ParseUint_loop cs ((n * 10 + (z - 48)) mod 18446744073709551616)
    else (0, Some ErrSyntax).
Proof. reflexivity. Qed.

Lemma is_digit_test c :
  is_digit c ↔ (48 <=? Z.of_N (Byte.to_N c)) && (Z.of_N (Byte.to_N c) <=? 57) = true.
Proof. unfold is_digit. rewrite andb_true_iff, !Z.leb_le. tauto. Qed.

Lemma decimal_from_ge ds : ∀ n,
  0 <= n → Forall is_digit ds → n <= decimal_from n ds.
Proof.
  induction ds as [|c ds IH]; intros n Hn Hds; simpl; [lia|].
  inversion Hds as [|? ? Hc Hds']; subst. unfold is_digit in Hc.
  etransitivity; [|apply IH; [lia|done]]. lia.
Qed.

(** On digits the loop computes the number they write, as long as it fits
    64 bits. *)
Lemma ParseUint_loop_digits ds : ∀ n,
  0 <= n → Forall is_digit ds → decimal_from n ds <= maxUint64 →
  ParseUint_loop ds n = (decimal_from n ds, None).
Proof.
  induction ds as [|c ds IH]; intros n Hn Hds Hmax; [reflexivity|].
  inversion Hds as [|? ? Hc Hds']; subst.
  rewrite ParseUint_loop_cons. cbv zeta.
  rewrite (proj1 (is_digit_test c) Hc). unfold is_digit in Hc. simpl in Hmax.
  assert (Hstep : n * 10 + (Z.of_N (Byte.to_N c) - 48) <= maxUint64).
  { etransitivity; [apply decimal_from_ge; [lia|done]|exact Hmax]. }
  pose proof maxUint64_val as Hval.
  destruct (1844674407370955162 <=? n) eqn:Hcut; [apply Z.leb_le in Hcut; lia|].
  rewrite Z.mod_small by lia.
  destruct (_ || _) eqn:Hov.
  { apply orb_true_iff in Hov as [Hov|Hov]; apply Z.ltb_lt in Hov; lia. }
  apply IH; [lia|done|lia].
Qed.

(** On digits that write a number beyond 64 bits the loop answers the
    largest value and a range error. *)
Lemma ParseUint_loop_overflow ds : ∀ n,
  0 <= n <= maxUint64 → Forall is_digit ds → maxUint64 < decimal_from n ds →
  ParseUint_loop ds n = (maxUint64, Some ErrRange).
Proof.
  induction ds as [|c ds IH]; intros n Hn Hds Hmax; [simpl in Hmax; lia|].
  inversion Hds as [|? ? Hc Hds']; subst.
  rewrite ParseUint_loop_cons. cbv zeta.
  rewrite (proj1 (is_digit_test c) Hc). unfold is_digit in Hc. simpl in Hmax.
  destruct (1844674407370955162 <=? n) eqn:Hcut; [reflexivity|].
  apply Z.leb_gt in Hcut.
  destruct (_ || _) eqn:Hov; [reflexivity|].
  apply orb_false_iff in Hov as [Hov1 Hov2].
  apply Z.ltb_ge in Hov1, Hov2. pose proof maxUint64_val as Hval.
  destruct (Z_lt_dec (n * 10 + (Z.of_N (Byte.to_N c) - 48)) 18446744073709551616)
    as [Hsmall|Hbig].
  - rewrite Z.mod_small in * by lia. apply IH; [lia|done|lia].
  - exfalso.
    assert (Hwrap : (n * 10 + (Z.of_N (Byte.to_N c) - 48)) mod 18446744073709551616
                    = n * 10 + (Z.of_N (Byte.to_N c) - 48) - 18446744073709551616).
    { symmetry. apply Z.mod_unique with 1; lia. }
    lia.
Qed.

(** An error of the loop is a syntax error with value 0 or a range error
    with the largest value. *)
Lemma ParseUint_loop_error cs : ∀ n v e,
  ParseUint_loop cs n = (v, Some e) →
  (e = ErrSyntax ∧ v = 0) ∨ (e = ErrRange ∧ v = maxUint64).
Proof.
  induction cs as [|c cs IH]; intros n v e Hloop; [discriminate|].
  rewrite ParseUint_loop_cons in Hloop. cbv zeta in Hloop.
  destruct (_ && _); [|simplify_eq; auto].
  destruct (_ <=? _); [simplify_eq; auto|].
  destruct (_ || _); [simplify_eq; auto|].
  eapply IH, Hloop.
Qed.

Lemma ParseUint_error s v e :
  ParseUint s = (v, Some e) →
  (e = ErrSyntax ∧ v = 0) ∨ (e = ErrRange ∧ v = maxUint64).
Proof.
  destruct s as [|c s]; unfold ParseUint.
  - intros Heq. simplify_eq. auto.
  - apply ParseUint_loop_error.
Qed.

Lemma ParseInt_error s v e :
  ParseInt s = (v, Some e) →
  (e = ErrSyntax ∧ v = 0)
  ∨ (e = ErrRange ∧ (v = 2 ^ 63 - 1 ∨ v = - 2 ^ 63)).
Proof.
  unfold ParseInt. destruct s as [|c s]; [intros Heq; simplify_eq; auto|].
  destruct (ParseUint _) as [un [[]|]]; try (intros Heq; simplify_eq; by auto).
  - change (2 ^ (intSize - 1)) with (2 ^ 63).
    destruct (negb _ && _); [intros Heq; simplify_eq; auto|].
    destruct (_ && _); intros Heq; simplify_eq; auto.
  - change (2 ^ (intSize - 1)) with (2 ^ 63).
    destruct (negb _ && _); [intros Heq; simplify_eq; auto|].
    destruct (_ && _); intros Heq; simplify_eq; auto.
Qed.

Lemma is_digit_not_sign c :
  is_digit c → Byte.eqb c x2b = false ∧ Byte.eqb c x2d = false.
Proof.
  intros Hc.
  split; (destruct (Byte.eqb c _) eqn:Heq; [|reflexivity]);
    apply Byte.byte_dec_bl in Heq; subst; unfold is_digit in Hc; simpl in Hc; lia.
Qed.

Lemma decimal_nonneg ds : Forall is_digit ds → 0 <= decimal ds.
Proof. intros Hds. apply decimal_from_ge; [lia|done]. Qed.

Lemma ParseUint_digits ds :
  ds ≠ [] → Forall is_digit ds →
  ParseUint ds
  = if decimal ds <=? maxUint64 then (decimal ds, None)
    else (maxUint64, Some ErrRange).
Proof.
  intros Hne Hds. destruct ds as [|c ds]; [done|]. unfold ParseUint.
  pose proof maxUint64_val as Hval.
  destruct (decimal (c :: ds) <=? maxUint64) eqn:Hfit.
  - apply Z.leb_le in Hfit. apply ParseUint_loop_digits; [lia|done|done].
  - apply Z.leb_gt in Hfit. apply ParseUint_loop_overflow; [lia|done|done].
Qed.

Lemma int64_small z : - 2 ^ 63 <= z < 2 ^ 63 → int64 z = z.
Proof. intros Hz. unfold int64. rewrite Z.mod_small; lia. Qed.

(** [ParseInt] on an unsigned or plus-signed run of digits. *)
Lemma ParseInt_plain s ds :
  ds ≠ [] → Forall is_digit ds → s = ds ∨ s = x2b :: ds →
  ParseInt s
  = if decimal ds <? 2 ^ 63 then (decimal ds, None)
    else (2 ^ 63 - 1, Some ErrRange).
Proof.
  intros Hne Hds Hs. pose proof (decimal_nonneg ds Hds) as Hpos.
  pose proof maxUint64_val as Hval.
  assert (Hbody : ParseInt s
                  = match ParseUint ds with
                    | (_, Some ErrSyntax) => (0, Some ErrSyntax)
                    | (un, _) =>
                        if 2 ^ 63 <=? un then (2 ^ 63 - 1, Some ErrRange)
                        else (int64 un, None)
                    end).
  { destruct Hs as [->| ->].
    - destruct ds as [|c ds]; [done|]. inversion Hds as [|? ? Hc _]; subst.
      destruct (is_digit_not_sign c Hc) as [Hplus Hminus].
      unfold ParseInt. rewrite Hplus, Hminus. reflexivity.
    - reflexivity. }
  rewrite Hbody, ParseUint_digits by done.
  destruct (decimal ds <=? maxUint64) eqn:Hfit.
  - destruct (2 ^ 63 <=? decimal ds) eqn:Hcut;
      destruct (decimal ds <? 2 ^ 63) eqn:Hlt; try reflexivity.
    + apply Z.leb_le in Hcut. apply Z.ltb_lt in Hlt. lia.
    + apply Z.leb_gt in Hcut. rewrite int64_small by lia. reflexivity.
    + apply Z.leb_gt in Hcut. apply Z.ltb_ge in Hlt. lia.
  - apply Z.leb_gt in Hfit.
    destruct (decimal ds <? 2 ^ 63) eqn:Hlt; [apply Z.ltb_lt in Hlt; lia|].
    reflexivity.
Qed.

(** [ParseInt] on a minus-signed run of digits. *)
Lemma ParseInt_minus ds :
  ds ≠ [] → Forall is_digit ds →
  ParseInt (x2d :: ds)
  = if decimal ds <=? 2 ^ 63 then (- decimal ds, None)
    else (- 2 ^ 63, Some ErrRange).
Proof.
  intros Hne Hds. pose proof (decimal_nonneg ds Hds) as Hpos.
  pose proof maxUint64_val as Hval.
  assert (Hbody : ParseInt (x2d :: ds)
                  = match ParseUint ds with
                    | (_, Some ErrSyntax) => (0, Some ErrSyntax)
                    | (un, _) =>
                        if 2 ^ 63 <? un then (- 2 ^ 63, Some ErrRange)
                        else (int64 (- int64 un), None)
                    end) by reflexivity.
  rewrite Hbody, ParseUint_digits by done.
  destruct (decimal ds <=? maxUint64) eqn:Hfit.
  - destruct (2 ^ 63 <? decimal ds) eqn:Hcut;
      destruct (decimal ds <=? 2 ^ 63) eqn:Hle; try reflexivity.
    + apply Z.ltb_lt in Hcut. apply Z.leb_le in Hle. lia.
    + apply Z.ltb_ge in Hcut.
      destruct (Z.eq_dec (decimal ds) (2 ^ 63)) as [->|Hlt]; [reflexivity|].
      rewrite (int64_small (decimal ds)), int64_small by lia. reflexivity.
    + apply Z.ltb_ge in Hcut. apply Z.leb_gt in Hle. lia.
  - apply Z.leb_gt in Hfit.
    destruct (decimal ds <=? 2 ^ 63) eqn:Hle; [apply Z.leb_le in Hle; lia|].
    reflexivity.
Qed.

Lemma existsb_eqb_In d l : existsb (String.eqb d) l = true ↔ In d l.
Proof.
  rewrite existsb_exists. split.
  - intros (x & Hx & Heq). apply String.eqb_eq in Heq. by subst.
  - intros Hd. exists d. split; [done|apply String.eqb_refl].
Qed.

Lemma Data_Int_bytes d :
  Data_Int d
  = (fst (ParseInt (list_byte_of_string d)),
     match snd (ParseInt (list_byte_of_string d)) with
     | Some Err => [Println "Failed getting event int argument" (NumError "Atoi" d Err)]
     | None => []
     end).
Proof.
  unfold Data_Int, Atoi.
  destruct (ParseInt (list_byte_of_string d)) as [n [Err|]]; reflexivity.
Qed.

(** C7, as the code has it.  [Data.Int] returns the number that an
    optionally signed run of decimal digits writes when it fits [int], and
    logs nothing.  When [Atoi] fails it logs one line and returns what
    [Atoi] gave: 0 for a syntax error, and the nearest bound of [int] for a
    range error, as for digits that write a number outside [int].
    [Data.Bool] returns the boolean of the literals [ParseBool] accepts and
    logs nothing; for any other payload it logs one line and returns false.
    Neither accessor has an error result. *)
Theorem Data_accessors (d : Data) :
  (∀ ds, ds ≠ [] → Forall is_digit ds →
     (list_byte_of_string d = ds ∨ list_byte_of_string d = x2b :: ds →
        (decimal ds < 2 ^ 63 → Data_Int d = (decimal ds, []))
        ∧ (2 ^ 63 <= decimal ds →
           Data_Int d
           = (2 ^ 63 - 1,
              [Println "Failed getting event int argument" (NumError "Atoi" d ErrRange)])))
     ∧ (list_byte_of_string d = x2d :: ds →
        (decimal ds <= 2 ^ 63 → Data_Int d = (- decimal ds, []))
        ∧ (2 ^ 63 < decimal ds →
           Data_Int d
           = (- 2 ^ 63,
              [Println "Failed getting event int argument" (NumError "Atoi" d ErrRange)]))))
  ∧ (∀ e, snd (Atoi d) = Some e →
       ∃ Err, e = NumError "Atoi" d Err
         ∧ snd (Data_Int d) = [Println "Failed getting event int argument" e]
         ∧ match Err with
           | ErrSyntax => fst (Data_Int d) = 0
           | ErrRange => fst (Data_Int d) = 2 ^ 63 - 1 ∨ fst (Data_Int d) = - 2 ^ 63
           end)
  ∧ (snd (Atoi d) = None → Data_Int d = (fst (Atoi d), []))
  ∧ (In d ["1"; "t"; "T"; "true"; "TRUE"; "True"]%string → Data_Bool d = (true, []))
  ∧ (In d ["0"; "f"; "F"; "false"; "FALSE"; "False"]%string → Data_Bool d = (false, []))
  ∧ (¬ In d ["1"; "t"; "T"; "true"; "TRUE"; "True";
             "0"; "f"; "F"; "false"; "FALSE"; "False"]%string →
     Data_Bool d
     = (false,
        [Println "Failed getting event bool argument" (NumError "ParseBool" d ErrSyntax)])).
Proof.
  repeat apply conj.
  - intros ds Hne Hds. split.
    + intros Hd. rewrite Data_Int_bytes, (ParseInt_plain _ ds) by done.
      split; intros Hrange.
      * destruct (decimal ds <? 2 ^ 63) eqn:Hlt; [reflexivity|].
        apply Z.ltb_ge in Hlt. lia.
      * destruct (decimal ds <? 2 ^ 63) eqn:Hlt; [|reflexivity].
        apply Z.ltb_lt in Hlt. lia.
    + intros Hd. rewrite Data_Int_bytes, Hd, ParseInt_minus by done.
      split; intros Hrange.
      * destruct (decimal ds <=? 2 ^ 63) eqn:Hle; [reflexivity|].
        apply Z.leb_gt in Hle. lia.
      * destruct (decimal ds <=? 2 ^ 63) eqn:Hle; [|reflexivity].
        apply Z.leb_le in Hle. lia.
  - intros e He. rewrite Data_Int_bytes. unfold Atoi in He.
    destruct (ParseInt (list_byte_of_string d)) as [n [Err|]] eqn:Hparse;
      simpl in He; [|discriminate].
    simplify_eq. exists Err. split; [reflexivity|]. split; [reflexivity|].
    simpl. destruct (ParseInt_error _ _ _ Hparse) as [[-> ->]|[-> Hn]]; done.
  - intros Hok. unfold Data_Int. destruct (Atoi d) as [n [e|]]; [discriminate|].
    reflexivity.
  - intros Hd. simpl in Hd. unfold Data_Bool.
    repeat (destruct Hd as [<-|Hd]; [reflexivity|]). done.
  - intros Hd. simpl in Hd. unfold Data_Bool.
    repeat (destruct Hd as [<-|Hd]; [reflexivity|]). done.
  - intros Hd. unfold Data_Bool, ParseBool.
    destruct (existsb (String.eqb d)
                ["1"; "t"; "T"; "true"; "TRUE"; "True"]%string) eqn:Htrue.
    { apply existsb_eqb_In in Htrue. exfalso. apply Hd.
      simpl in Htrue |- *. tauto. }
    destruct (existsb (String.eqb d)
                ["0"; "f"; "F"; "false"; "FALSE"; "False"]%string) eqn:Hfalse;
      [|reflexivity].
    apply existsb_eqb_In in Hfalse. exfalso. apply Hd.
    simpl in Hfalse |- *. tauto.
Qed.

(** * The properties on the reference engine *)

Lemma no_NUL_check l :
  forallb (fun b => negb (Byte.eqb b NUL)) l = true → NUL ∉ l.
Proof.
  induction l as [|b l IH]; simpl; [intros _; apply not_elem_of_nil|].
  intros [Hb Hl]%andb_true_iff. apply not_elem_of_cons. split; [|by apply IH].
  intros Heq. symmetry in Heq. apply eqb_NUL in Heq. rewrite Heq in Hb. done.
Qed.

(** C1 at work: window 1 exists and nothing is bound on it; a dispatch for
    "submit" panics, and the trace holds the id lookup only. *)
Lemma goWebuiEvent_unregistered_witness :
  ∃ σ', goWebuiEvent go_Marshal 1 WEBUI_EVENT_CALLBACK
                     (CString "submit") (CString "hello") 7 demo_world1
        = (Panics NilFuncCall, σ')
        ∧ trace σ' = trace demo_world1 ++ [call_get_bind_id 1 (CString "submit")]
        ∧ responses (trace σ') = responses (trace demo_world1)
        ∧ logged σ' = logged demo_world1
        ∧ funcList σ' = funcList demo_world1.
Proof.
  apply (goWebuiEvent_unregistered go_Marshal 1 WEBUI_EVENT_CALLBACK
           (CString "submit") (CString "hello") 7 demo_world1).
  vm_compute. reflexivity.
Defined.

(** C1 as stated fails: the dispatch for the unbound "submit" does not
    return, and it logs nothing. *)
Lemma goWebuiEvent_unregistered_counterexample :
  funcList_get (funcList demo_world1) (uint 1)
               (bound_id 1 (CString "submit") demo_world1) = None
  ∧ fst (goWebuiEvent go_Marshal 1 WEBUI_EVENT_CALLBACK
                      (CString "submit") (CString "hello") 7 demo_world1)
    = Panics NilFuncCall
  ∧ logged (snd (goWebuiEvent go_Marshal 1 WEBUI_EVENT_CALLBACK
                              (CString "submit") (CString "hello") 7 demo_world1))
    = []
  ∧ ¬ ∃ σ', goWebuiEvent go_Marshal 1 WEBUI_EVENT_CALLBACK
                         (CString "submit") (CString "hello") 7 demo_world1
            = (Returns tt, σ').
Proof.
  split; [vm_compute; reflexivity|].
  split; [vm_compute; reflexivity|].
  split; [vm_compute; reflexivity|].
  intros [σ' Hσ']. apply (f_equal fst) in Hσ'. vm_compute in Hσ'. discriminate.
Qed.

(** C2 at work: after [Bind("submit", cb)] the dispatch with payload
    "hello" writes the one response "true" for event 7; with the empty
    payload the callback answers nil and nothing is written. *)
Lemma goWebuiEvent_registered_witness :
  (∃ σ', goWebuiEvent go_Marshal 1 WEBUI_EVENT_CALLBACK
                      (CString "submit") (CString "hello") 7 demo_world2
         = (Returns tt, σ')
         ∧ responses (trace σ') = [(1, 7, CString "true")])
  ∧ (∃ σ', goWebuiEvent go_Marshal 1 WEBUI_EVENT_CALLBACK
                        (CString "submit") (CString EmptyString) 8 demo_world2
           = (Returns tt, σ')
           ∧ responses (trace σ') = []).
Proof.
  split.
  - destruct (goWebuiEvent_registered go_Marshal 1 WEBUI_EVENT_CALLBACK
                (CString "submit") (CString "hello") 7 demo_world2 demo_callback)
      as [_ Hvalue]; [vm_compute; reflexivity|].
    apply (Hvalue (go_bool true)). reflexivity.
  - destruct (goWebuiEvent_registered go_Marshal 1 WEBUI_EVENT_CALLBACK
                (CString "submit") (CString EmptyString) 8 demo_world2 demo_callback)
      as [Hnil _]; [vm_compute; reflexivity|].
    apply Hnil. reflexivity.
Defined.

(** C3 at work: the callback answers a channel, [json.Marshal] fails with
    no bytes; the failure is logged and the empty response is written. *)
Lemma goWebuiEvent_marshal_failure_witness :
  ∃ σ', goWebuiEvent go_Marshal 1 WEBUI_EVENT_CALLBACK
                     (CString "submit") (CString "chan") 9 demo_world2
        = (Returns tt, σ')
        ∧ logged σ'
          = logged demo_world2
            ++ [Println "Failed encoding JS result into JSON"
                        (json_Error "json: unsupported type: chan int")]
        ∧ responses (trace σ')
          = responses (trace demo_world2) ++ [(1, 9, CString EmptyString)].
Proof.
  apply (goWebuiEvent_marshal_failure go_Marshal 1 WEBUI_EVENT_CALLBACK
           (CString "submit") (CString "chan") 9 demo_world2 demo_callback go_chan
           [] (json_Error "json: unsupported type: chan int")).
  - vm_compute. reflexivity.
  - reflexivity.
  - reflexivity.
Defined.

(** C4 at work: on window 1 [Bind] returns and the callback sits under the
    id the engine answered. *)
Lemma Window_Bind_outcome_witness :
  ∃ σ', Window_Bind 1 "submit" (Some demo_callback) demo_world1 = (Returns tt, σ')
        ∧ funcList σ'
          = <[1 := <[bind_id 1 "submit" demo_world1 := Some demo_callback]> ∅]>
              (funcList demo_world1)
        ∧ logged σ' = logged demo_world1.
Proof.
  destruct (Window_Bind_outcome 1 "submit" (Some demo_callback) demo_world1)
    as [Hmap _].
  apply Hmap. vm_compute. reflexivity.
Defined.

(** C4 as stated fails.  The engine gives the same answer to [Bind] in a
    process without window and in one with window 1; the first [Bind]
    panics and the second returns.  So no reading of the engine's answer as
    "rejected" makes [Bind] fail exactly on rejection, and in neither case
    is there an error value. *)
Lemma Window_Bind_counterexample :
  fst (webui_bind 1 (CString "submit") (engine demo_world0))
  = fst (webui_bind 1 (CString "submit") (engine demo_world1))
  ∧ fst (Window_Bind 1 "submit" (Some demo_callback) demo_world0)
    = Panics NilMapAssign
  ∧ fst (Window_Bind 1 "submit" (Some demo_callback) demo_world1) = Returns tt
  ∧ ¬ ∃ rejects : Z → Prop,
        ∀ σ : World (any := go_value) (E := ref_engine),
          fst (Window_Bind 1 "submit" (Some demo_callback) σ) ≠ Returns tt
          ↔ rejects (fst (webui_bind 1 (CString "submit") (engine σ))).
Proof.
  split; [vm_compute; reflexivity|].
  split; [vm_compute; reflexivity|].
  split; [vm_compute; reflexivity|].
  intros [rejects Hrejects].
  pose proof (Hrejects demo_world0) as H0.
  pose proof (Hrejects demo_world1) as H1.
  assert (Hr : rejects (fst (webui_bind 1 (CString "submit") (engine demo_world1)))).
  { apply H0. vm_compute. discriminate. }
  apply H1 in Hr. apply Hr. vm_compute. reflexivity.
Qed.



(** C7 at work: "42" and "-17" are read, "true" is read. *)
Lemma Data_accessors_witness :
  Data_Int "42" = (42, [])
  ∧ Data_Int "-17" = (-17, [])
  ∧ Data_Bool "true" = (true, []).
Proof.
  destruct (Data_accessors "42") as (Hint & _).
  destruct (Hint (list_byte_of_string "42")) as [[Hplain _]%(fun H => H (or_introl eq_refl)) _];
    [discriminate | repeat constructor; unfold is_digit; simpl; lia |].
  destruct (Data_accessors "-17") as (Hneg & _).
  destruct (Hneg (list_byte_of_string "17")) as [_ [Hminus _]%(fun H => H eq_refl)];
    [discriminate | repeat constructor; unfold is_digit; simpl; lia |].
  destruct (Data_accessors "true") as (_ & _ & _ & Htrue & _).
  split; [apply Hplain; vm_compute; reflexivity|].
  split; [apply Hminus; vm_compute; discriminate|].
  apply Htrue. simpl. tauto.
Defined.

(** C7 as stated fails: "9223372036854775808" does not parse as an [int]
    (range error), a line is logged, and the value returned is the largest
    [int], not 0.  "not-a-number" gives 0 and "nonsense" gives false. *)
Lemma Data_Int_counterexample :
  snd (Atoi "9223372036854775808")
  = Some (NumError "Atoi" "9223372036854775808" ErrRange)
  ∧ Data_Int "9223372036854775808"
    = (9223372036854775807,
       [Println "Failed getting event int argument"
                (NumError "Atoi" "9223372036854775808" ErrRange)])
  ∧ fst (Data_Int "9223372036854775808") ≠ 0
  ∧ Data_Int "not-a-number"
    = (0, [Println "Failed getting event int argument"
                   (NumError "Atoi" "not-a-number" ErrSyntax)])
  ∧ Data_Bool "nonsense"
    = (false, [Println "Failed getting event bool argument"
                       (NumError "ParseBool" "nonsense" ErrSyntax)]).
Proof.
  split; [vm_compute; reflexivity|].
  split; [vm_compute; reflexivity|].
  split; [vm_compute; discriminate|].
  split; vm_compute; reflexivity.
Qed.

(** C8 at work on the reference engine, whose codec is inverse: a text
    with markup and control characters, and the empty text, come back. *)
Lemma Decode_Encode_witness :
  Decode (E := ref_engine) (Encode (E := ref_engine) "<a href='x'>&</a>")
  = "<a href='x'>&</a>"%string
  ∧ Decode (E := ref_engine) (Encode (E := ref_engine) EmptyString) = EmptyString.
Proof.
  split.
  - apply (Decode_Encode (E := ref_engine) "<a href='x'>&</a>").
    + exact ref_codec_inverse.
    + apply no_NUL_check. reflexivity.
  - apply (Decode_Encode (E := ref_engine) EmptyString).
    + exact ref_codec_inverse.
    + apply no_NUL_check. reflexivity.
Defined.

(** C8 as stated fails: a Go string may hold a NUL byte, and the text "a",
    NUL, "b" comes back as "a" from the reference engine, whose codec is
    inverse.  No engine does better: [Decode] never answers a text with a
    NUL byte. *)
Lemma Decode_Encode_counterexample :
  codec_inverse (E := ref_engine)
  ∧ Decode (E := ref_engine) (Encode (E := ref_engine) text_with_NUL) = "a"%string
  ∧ Decode (E := ref_engine) (Encode (E := ref_engine) text_with_NUL) ≠ text_with_NUL
  ∧ ¬ ∃ (E : Type) (engine : WebUI E),
        Decode (E := E) (Encode (E := E) text_with_NUL) = text_with_NUL.
Proof.
  split; [exact ref_codec_inverse|].
  split; [vm_compute; reflexivity|].
  split; [vm_compute; discriminate|].
  intros (E & engine & Heq).
  pose proof (Decode_no_NUL (E := E) (Encode (E := E) text_with_NUL)) as Hno.
  rewrite Heq in Hno. apply Hno. vm_compute.
  apply list_elem_of_further, list_elem_of_here.
Qed.

(** C10 at work: after [NewWindow] (window 1), a bind and a dispatch,
    [Bind] returns on window 1 and panics on window 2. *)
Lemma Window_Bind_needs_NewWindow_witness :
  (∃ σ', Window_Bind 1 "cancel" None
           (snd (goWebuiEvent go_Marshal 1 WEBUI_EVENT_CALLBACK
                   (CString "submit") (CString "hello") 7 demo_world2))
         = (Returns tt, σ'))
  ∧ (∃ σ', Window_Bind 2 "cancel" None
             (snd (goWebuiEvent go_Marshal 1 WEBUI_EVENT_CALLBACK
                     (CString "submit") (CString "hello") 7 demo_world2))
           = (Panics NilMapAssign, σ')).
Proof.
  assert (Hrun :
    run_ops go_Marshal
      [op_NewWindow;
       op_Bind 1 "submit" (Some demo_callback);
       op_Event 1 WEBUI_EVENT_CALLBACK (CString "submit") (CString "hello") 7]
      (init_world (ref_start false "hello world")) ∅
    = Some (snd (goWebuiEvent go_Marshal 1 WEBUI_EVENT_CALLBACK
                   (CString "submit") (CString "hello") 7 demo_world2),
            {[1]} ∪ ∅)) by reflexivity.
  destruct (Window_Bind_needs_NewWindow go_Marshal _ _ _ _ Hrun) as [_ Hbind].
  split.
  - apply (Hbind 1 "cancel"%string None).
    apply elem_of_union. left. by apply elem_of_singleton.
  - apply (Hbind 2 "cancel"%string None).
    intros [Hin|Hin]%elem_of_union.
    + apply elem_of_singleton in Hin. discriminate.
    + by apply not_elem_of_empty in Hin.
Defined.

(** * Further properties of the bridge *)

(** ** The callback table: bind, look up, dispatch *)

Lemma uint_small z : 0 <= z < 2 ^ 64 → uint z = z.
Proof. intros Hz. unfold uint. by apply Z.mod_small. Qed.

Lemma uint_range z : 0 <= uint z < 2 ^ 64.
Proof. unfold uint. apply Z.mod_pos_bound. lia. Qed.

Section Registry.

Context {any : Type} (json_Marshal : any -> list byte * option error).
Context {E : Type} `{WebUI E}.

Implicit Types (σ : World (any := any) (E := E)).
Implicit Types (fl : gmap Z (gmap Z (option (callback (any := any))))).

Lemma funcList_get_insert_eq fl w id cb m :
  funcList_get (<[w := <[id := cb]> m]> fl) w id = cb.
Proof. unfold funcList_get. by rewrite !lookup_insert_eq. Qed.

Lemma funcList_get_insert_ne fl w id cb m w' id' :
  fl !! w = Some m → (w', id') ≠ (w, id) →
  funcList_get (<[w := <[id := cb]> m]> fl) w' id' = funcList_get fl w' id'.
Proof.
  intros Hm Hne. unfold funcList_get.
  destruct (decide (w' = w)) as [->|Hw].
  - rewrite lookup_insert_eq, Hm.
    rewrite lookup_insert_ne; [reflexivity|]. intros <-. by apply Hne.
  - by rewrite lookup_insert_ne.
Qed.

(** What a [Bind] that returned has done. *)
Lemma Window_Bind_returned w element cb σ σ1 :
  Window_Bind w element cb σ = (Returns tt, σ1) →
  ∃ m, funcList σ !! w = Some m
       ∧ funcList σ1 = <[w := <[bind_id w element σ := cb]> m]> (funcList σ)
       ∧ trace σ1 = trace σ ++ [call_bind w (CString element)]
       ∧ logged σ1 = logged σ.
Proof.
  unfold Window_Bind, bind_id.
  destruct (webui_bind w (CString element) (engine σ)) as [id eng1]. simpl.
  destruct (funcList σ !! w) as [m|]; [|discriminate].
  intros Heq. simplify_eq. exists m. simpl. auto.
Qed.

(** The dispatcher, by the callback it finds. *)
Lemma goWebuiEvent_found window et el d n σ :
  goWebuiEvent json_Marshal window et el d n σ
  = let σ1 := called (call_get_bind_id window el)
                     (snd (webui_interface_get_bind_id window el (engine σ))) σ in
    match funcList_get (funcList σ) (uint window) (bound_id window el σ) with
    | None => (Panics NilFuncCall, σ1)
    | Some f =>
        match f (mkEvent (uint window) (uint et) (GoString el) (GoString d)) with
        | None => (Returns tt, σ1)
        | Some result =>
            let σ2 := match snd (json_Marshal result) with
                      | Some err =>
                          log_Println "Failed encoding JS result into JSON" err σ1
                      | None => σ1
                      end in
            let response := CString (string_of_list_byte (fst (json_Marshal result))) in
            (Returns tt,
             called (call_set_response window n response)
                    (webui_interface_set_response window n response (engine σ2)) σ2)
        end
    end.
Proof.
  unfold goWebuiEvent, bound_id.
  destruct (webui_interface_get_bind_id window el (engine σ)) as [id eng1]. simpl.
  destruct (funcList_get _ _ _) as [f|]; [|reflexivity].
  destruct (f _) as [result|]; [|reflexivity].
  destruct (json_Marshal result) as [jsonRes err]. reflexivity.
Qed.

(** X1: binding and dispatching compose.  After [w.Bind(element, f)]
    returned, a dispatch for the same window and element, for which the
    engine answers the id it gave to [Bind], calls [f] on the event
    [{w, event type, element, data}] and returns; the responses grow by the
    JSON of the value [f] returned, for this event number, or not at all
    when [f] returned nil. *)
Theorem Window_Bind_then_dispatch w element f et data n σ σ1 :
  0 <= w < 2 ^ 64 → 0 <= et < 2 ^ 64 →
  NUL ∉ list_byte_of_string element → NUL ∉ list_byte_of_string data →
  Window_Bind w element (Some f) σ = (Returns tt, σ1) →
  bound_id w (CString element) σ1 = bind_id w element σ →
  fst (goWebuiEvent json_Marshal w et (CString element) (CString data) n σ1)
  = Returns tt
  ∧ responses (trace (snd (goWebuiEvent json_Marshal w et (CString element)
                                        (CString data) n σ1)))
    = responses (trace σ1)
      ++ match f (mkEvent w et element data) with
         | None => []
         | Some v => [(w, n, CString (string_of_list_byte (fst (json_Marshal v))))]
         end.
Proof.
  intros Hw Het Hel Hdata Hbind Hid.
  destruct (Window_Bind_returned _ _ _ _ _ Hbind) as (m & Hm & Hfl & _).
  rewrite goWebuiEvent_found. cbv zeta.
  rewrite Hid, Hfl, !uint_small by done. rewrite funcList_get_insert_eq.
  unfold GoString, CString. rewrite !c_text_sentinel by done.
  rewrite !string_of_list_byte_of_string.
  destruct (f _) as [v|]; simpl.
  - split; [reflexivity|].
    destruct (snd (json_Marshal v)); simpl;
      rewrite <- !responses_app; simpl; by rewrite app_nil_r.
  - split; [reflexivity|]. rewrite <- responses_app. reflexivity.
Qed.

(** X2: [Bind] is an insertion into the table.  After a [Bind] that
    returned, the entry of the window under the id the engine answered is the
    callback just given, whatever was there before, and every other entry
    reads as before. *)
Theorem Window_Bind_lookup w element cb σ σ1 :
  Window_Bind w element cb σ = (Returns tt, σ1) →
  funcList_get (funcList σ1) w (bind_id w element σ) = cb
  ∧ ∀ w' id', (w', id') ≠ (w, bind_id w element σ) →
      funcList_get (funcList σ1) w' id' = funcList_get (funcList σ) w' id'.
Proof.
  intros Hbind.
  destruct (Window_Bind_returned _ _ _ _ _ Hbind) as (m & Hm & Hfl & _).
  rewrite Hfl. split; [apply funcList_get_insert_eq|].
  intros w' id' Hne. by apply funcList_get_insert_ne.
Qed.

(** X3: [Bind] accepts the nil func and returns; the dispatch that later
    resolves to that entry calls nil and panics. *)
Theorem Window_Bind_nil_then_dispatch w element et _data n σ σ1 :
  0 <= w < 2 ^ 64 →
  Window_Bind w element None σ = (Returns tt, σ1) →
  bound_id w (CString element) σ1 = bind_id w element σ →
  fst (goWebuiEvent json_Marshal w et (CString element) _data n σ1)
  = Panics NilFuncCall.
Proof.
  intros Hw Hbind Hid.
  destruct (Window_Bind_returned _ _ _ _ _ Hbind) as (m & Hm & Hfl & _).
  rewrite goWebuiEvent_found. cbv zeta.
  rewrite Hid, Hfl, uint_small by done. rewrite funcList_get_insert_eq.
  reflexivity.
Qed.

(** X4: the window [NewWindow] returns is a 64-bit handle with no callback
    under any id; callbacks that the table held for the same handle are
    dropped.  The entries of every other window read as before, one engine
    call is made and nothing is logged. *)
Theorem NewWindow_table σ :
  0 <= fst (NewWindow σ) < 2 ^ 64
  ∧ (∀ id, funcList_get (funcList (snd (NewWindow σ))) (fst (NewWindow σ)) id = None)
  ∧ (∀ w' id, w' ≠ fst (NewWindow σ) →
       funcList_get (funcList (snd (NewWindow σ))) w' id
       = funcList_get (funcList σ) w' id)
  ∧ trace (snd (NewWindow σ)) = trace σ ++ [call_new_window]
  ∧ logged (snd (NewWindow σ)) = logged σ.
Proof.
  unfold NewWindow. destruct (webui_new_window (engine σ)) as [h eng1]. simpl.
  split; [apply uint_range|]. split; [|split; [|auto]].
  - intros id. unfold funcList_get. by rewrite lookup_insert_eq, lookup_empty.
  - intros w' id Hne. unfold funcList_get. by rewrite lookup_insert_ne.
Qed.


(** X6: lookups never cross windows.  Replacing the table by any table
    with the same inner map for the dispatched window changes nothing in the
    dispatch: same outcome, same calls, same log. *)
Theorem goWebuiEvent_other_windows window et el d n σ fl' :
  fl' !! uint window = funcList σ !! uint window →
  goWebuiEvent json_Marshal window et el d n (set_funcList fl' σ)
  = (fst (goWebuiEvent json_Marshal window et el d n σ),
     set_funcList fl' (snd (goWebuiEvent json_Marshal window et el d n σ))).
Proof.
  intros Hsame. rewrite !goWebuiEvent_found. cbv zeta.
  assert (Hget : ∀ id, funcList_get fl' (uint window) id
                       = funcList_get (funcList σ) (uint window) id).
  { intros id. unfold funcList_get. by rewrite Hsame. }
  unfold bound_id. simpl. rewrite Hget.
  destruct (funcList_get _ _ _) as [f|]; [|reflexivity].
  destruct (f _) as [v|]; [|reflexivity].
  destruct (snd (json_Marshal v)); reflexivity.
Qed.

End Registry.

(** ** Sequences of operations *)

Section Sequences.

Context {any : Type} (json_Marshal : any -> list byte * option error).
Context {E : Type} `{WebUI E}.

Implicit Types (σ : World (any := any) (E := E)).



(** X7: a window keeps its inner map.  Along every run of [NewWindow],
    [Bind] and dispatch steps that returned, a window that had an inner map
    at the start has one at the end, the windows collected only grow, and
    [Bind] on such a window returns in the final state. *)
Theorem run_ops_keeps_windows ops : ∀ σ0 created0 σ created,
  run_ops json_Marshal ops σ0 created0 = Some (σ, created) →
  (∀ w, is_Some (funcList σ0 !! w) → is_Some (funcList σ !! w))
  ∧ (∀ w, w ∈ created0 → w ∈ created)
  ∧ (∀ w element cb, is_Some (funcList σ0 !! w) →
       ∃ σ', Window_Bind w element cb σ = (Returns tt, σ')).
Proof.
  assert (Hkeep : ∀ ops σ0 created0 σ created,
    run_ops json_Marshal ops σ0 created0 = Some (σ, created) →
    (∀ w, is_Some (funcList σ0 !! w) → is_Some (funcList σ !! w))
    ∧ (∀ w, w ∈ created0 → w ∈ created)).
  { clear ops. induction ops as [|o ops IH]; intros σ0 created0 σ created Hrun.
    - simpl in Hrun. by simplify_eq.
    - destruct o as [|w0 element cb|w0 t el d n]; simpl in Hrun.
      + destruct (NewWindow σ0) as [w1 σ1] eqn:Hnew.
        destruct (IH _ _ _ _ Hrun) as [Hmaps Hset]. split.
        * intros w Hw. apply Hmaps.
          pose proof (NewWindow_inner_map σ0) as Hw1.
          pose proof (NewWindow_other σ0 w) as Hother.
          rewrite Hnew in Hw1, Hother. simpl in Hw1, Hother.
          destruct (decide (w = w1)) as [->|Hne]; [eauto|].
          by rewrite Hother.
        * intros w Hw. apply Hset, elem_of_union. by right.
      + destruct (Window_Bind w0 element cb σ0) as [[[]|p|] σ1] eqn:Hbind;
          try discriminate.
        destruct (IH _ _ _ _ Hrun) as [Hmaps Hset]. split; [|exact Hset].
        intros w Hw. apply Hmaps.
        destruct (Window_Bind_returned _ _ _ _ _ Hbind) as (m & Hm & Hfl & _).
        rewrite Hfl. destruct (decide (w = w0)) as [->|Hne].
        * rewrite lookup_insert_eq. eauto.
        * by rewrite lookup_insert_ne.
      + pose proof (goWebuiEvent_funcList json_Marshal w0 t el d n σ0) as Hfl.
        destruct (goWebuiEvent json_Marshal w0 t el d n σ0) as [[[]|p|] σ1];
          try discriminate.
        destruct (IH _ _ _ _ Hrun) as [Hmaps Hset]. split; [|exact Hset].
        intros w Hw. apply Hmaps. simpl in Hfl. by rewrite Hfl. }
  intros σ0 created0 σ created Hrun.
  destruct (Hkeep _ _ _ _ _ Hrun) as [Hmaps Hset].
  split; [exact Hmaps|]. split; [exact Hset|].
  intros w element cb Hw. destruct (Hmaps w Hw) as [m Hm].
  destruct (Window_Bind_inner_map w element cb σ m Hm) as (σ' & Heq & _). eauto.
Qed.


End Sequences.

(** ** The control functions *)

Section ControlFrame.

Context {any : Type} {E : Type} `{WebUI E} `{WebUI_control E}.

Implicit Types (p : Process (any := any) (E := E)).

Lemma control_step_frame o p :
  funcList (world (control_step o p)) = funcList (world p)
  ∧ trace (world (control_step o p)) = trace (world p)
  ∧ logged (world (control_step o p)) = logged (world p)
  ∧ length (control (control_step o p)) = S (length (control p)).
Proof.
  destruct o; simpl; unfold Window_IsShown;
    try destruct (webui_is_shown _ _) as [status eng1]; simpl;
    rewrite length_app; simpl; repeat split; lia.
Qed.

(** X9: [Run], [SetRuntime], [IsShown], [Close], [SetTimeout],
    [SetMultiAccess], [Exit], [Show] and [ShowBrowser], in any number and
    order, leave the callback table, the dispatcher's trace and the log as
    they were, and each makes one engine call.  So no callback is ever
    unbound by them: [Bind] still returns on a window that had its inner
    map, also after [Close] or [Exit]. *)
Theorem run_control_frame os : ∀ p,
  funcList (world (run_control os p)) = funcList (world p)
  ∧ trace (world (run_control os p)) = trace (world p)
  ∧ logged (world (run_control os p)) = logged (world p)
  ∧ length (control (run_control os p)) = (length (control p) + length os)%nat
  ∧ (∀ w element cb, is_Some (funcList (world p) !! w) →
       ∃ σ', Window_Bind w element cb (world (run_control os p)) = (Returns tt, σ')).
Proof.
  assert (Hframe : ∀ os p,
    funcList (world (run_control os p)) = funcList (world p)
    ∧ trace (world (run_control os p)) = trace (world p)
    ∧ logged (world (run_control os p)) = logged (world p)
    ∧ length (control (run_control os p)) = (length (control p) + length os)%nat).
  { clear os. induction os as [|o os IH]; intros p; simpl.
    - repeat split; lia.
    - destruct (IH (control_step o p)) as (Hfl & Htrace & Hlog & Hlen).
      destruct (control_step_frame o p) as (Hfl1 & Htrace1 & Hlog1 & Hlen1).
      unfold run_control in *.
      rewrite Hfl, Htrace, Hlog, Hlen, Hfl1, Htrace1, Hlog1, Hlen1.
      repeat split; lia. }
  intros p. destruct (Hframe os p) as (Hfl & Htrace & Hlog & Hlen).
  repeat split; try done.
  intros w element cb [m Hm]. rewrite <- Hfl in Hm.
  destruct (Window_Bind_inner_map w element cb _ m Hm) as (σ' & Heq & _). eauto.
Qed.

End ControlFrame.

(** ** More on Script *)

Lemma IndexByte_found b : ∀ i,
  IndexByte b NUL = i → 0 <= i →
  (Z.to_nat i < length b)%nat ∧ take (Z.to_nat i) b = c_text b.
Proof.
  induction b as [|x b IH]; intros i Hi Hpos; simpl in Hi; [lia|]. simpl.
  destruct (Byte.eqb x NUL) eqn:Hx.
  - subst i. simpl. split; [lia|reflexivity].
  - destruct (IndexByte b NUL <? 0) eqn:Hneg; [lia|].
    apply Z.ltb_ge in Hneg.
    destruct (IH (IndexByte b NUL) eq_refl Hneg) as [Hlt Htake].
    subst i. rewrite Z2Nat.inj_add, Nat.add_1_r by lia. simpl.
    split; [lia|]. by rewrite Htake.
Qed.

Section MoreScripts.

Context {any : Type} {E : Type} `{WebUI E}.

Implicit Types (σ : World (any := any) (E := E)).

(** [Script], by what the engine answered. *)
Lemma Window_Script_cases w script options σ :
  0 <= BufferSize options →
  Window_Script w script options σ
  = let cap := buffer_capacity (BufferSize options) in
    let answer := webui_script w (CString script) (Timeout options)
                               (make_bytes cap) cap (engine σ) in
    let stored := snd (fst answer) in
    let σ1 := called (script_call w script options) (snd answer) σ in
    if (Z.to_nat cap <? length stored)%nat then (Undefined, σ1)
    else if IndexByte (buffer_after stored cap) NUL <? 0
    then (Panics (SliceBounds (IndexByte (buffer_after stored cap) NUL)), σ1)
    else (Returns (string_of_list_byte (c_text (buffer_after stored cap)),
                   if fst (fst answer) then None
                   else Some (errors_New "Failed running JavaScript.")), σ1).
Proof.
  intros Hsize. apply buffer_capacity_pos in Hsize. cbv zeta.
  pose proof (length_make_bytes (buffer_capacity (BufferSize options))) as Hlen.
  unfold Window_Script, script_call, buffer_after. cbn [Timeout BufferSize].
  fold (buffer_capacity (BufferSize options)).
  rewrite <- Hlen.
  destruct (make_bytes (buffer_capacity (BufferSize options))) as [|b0 buf] eqn:Hmk.
  { try rewrite Hmk in Hlen. simpl in Hlen. lia. }
  destruct (webui_script _ _ _ _ _ _) as [[ok stored] eng1]. simpl fst. simpl snd.
  destruct (length (b0 :: buf) <? length stored)%nat; [reflexivity|].
  destruct (IndexByte _ NUL <? 0) eqn:Hneg; [reflexivity|].
  apply Z.ltb_ge in Hneg.
  destruct (IndexByte_found _ _ eq_refl Hneg) as [_ ->]. reflexivity.
Qed.

(** X10: what [Script] can return.  Whatever the engine stored, a text
    that [Script] returns is the content of the buffer before its first NUL
    byte: it holds no NUL byte and is shorter than the capacity.  The error
    is nil when the engine answered success and the fixed error
    "Failed running JavaScript." otherwise. *)
Theorem Window_Script_returned w script options σ text err :
  0 <= BufferSize options →
  fst (Window_Script w script options σ) = Returns (text, err) →
  let cap := buffer_capacity (BufferSize options) in
  let answer := webui_script w (CString script) (Timeout options)
                             (make_bytes cap) cap (engine σ) in
  list_byte_of_string text = c_text (buffer_after (snd (fst answer)) cap)
  ∧ (NUL ∉ list_byte_of_string text)
  ∧ Z.of_nat (String.length text) < cap
  ∧ err = (if fst (fst answer) then None
           else Some (errors_New "Failed running JavaScript.")).
Proof.
  intros Hsize. rewrite Window_Script_cases by done. cbv zeta.
  set (cap := buffer_capacity (BufferSize options)).
  set (answer := webui_script _ _ _ _ _ _).
  destruct (Z.to_nat cap <? length (snd (fst answer)))%nat eqn:Hfit;
    [discriminate|].
  apply Nat.ltb_ge in Hfit.
  destruct (IndexByte _ NUL <? 0) eqn:Hneg; [discriminate|].
  apply Z.ltb_ge in Hneg. simpl. intros Heq. simplify_eq.
  rewrite list_byte_of_string_of_list_byte, length_string_of_list_byte.
  split; [reflexivity|]. split; [apply c_text_no_NUL|]. split; [|reflexivity].
  destruct (IndexByte_found _ _ eq_refl Hneg) as [Hlt Htake].
  rewrite <- Htake, length_take.
  assert (Hlen : length (buffer_after (snd (fst answer)) cap) = Z.to_nat cap).
  { unfold buffer_after. rewrite length_app, length_drop, length_make_bytes. lia. }
  pose proof (buffer_capacity_pos _ Hsize) as Hcap. fold cap in Hcap. lia.
Qed.



End MoreScripts.

(** ** More on Encode and Decode *)

Lemma c_text_CString s : c_text (CString s) = c_text (list_byte_of_string s).
Proof.
  unfold CString. induction (list_byte_of_string s) as [|b l IH]; simpl.
  - reflexivity.
  - destruct (Byte.eqb b NUL); [reflexivity|]. by rewrite IH.
Qed.

Section MoreCodec.

Context {E : Type} `{WebUI E}.

(** X13: [Encode] and [Decode] answer C text.  For every engine and every
    argument the result holds no NUL byte, and it is the empty string when
    the engine answers NULL. *)
Theorem Encode_Decode_C_text str :
  (NUL ∉ list_byte_of_string (Encode str))
  ∧ (NUL ∉ list_byte_of_string (Decode str))
  ∧ (webui_encode (CString str) = None → Encode str = EmptyString)
  ∧ (webui_decode (CString str) = None → Decode str = EmptyString).
Proof.
  split; [apply GoString_ptr_no_NUL|]. split; [apply GoString_ptr_no_NUL|].
  unfold Encode, Decode. split; intros ->; reflexivity.
Qed.

(** X14: the argument is cut at its first NUL byte.  For an engine that
    reads its argument as a C string, [Encode] and [Decode] give the same
    result for two strings that agree before their first NUL byte. *)
Theorem Encode_Decode_cut s s' :
  (∀ p q, c_text p = c_text q →
     webui_encode p = webui_encode q ∧ webui_decode p = webui_decode q) →
  c_text (list_byte_of_string s) = c_text (list_byte_of_string s') →
  Encode s = Encode s' ∧ Decode s = Decode s'.
Proof.
  intros Hreads Hsame.
  assert (Hc : c_text (CString s) = c_text (CString s'))
    by (by rewrite !c_text_CString).
  destruct (Hreads _ _ Hc) as [Henc Hdec].
  unfold Encode, Decode. by rewrite Henc, Hdec.
Qed.

End MoreCodec.

(** ** More on [Data.Int] *)

Lemma int64_range z : - 2 ^ 63 <= int64 z < 2 ^ 63.
Proof.
  unfold int64. pose proof (Z.mod_pos_bound (z + 2 ^ 63) (2 ^ 64)). lia.
Qed.

Lemma ParseInt_range s : - 2 ^ 63 <= fst (ParseInt s) < 2 ^ 63.
Proof.
  unfold ParseInt. destruct s as [|c s]; [cbn [fst]; lia|].
  change (2 ^ (intSize - 1)) with (2 ^ 63).
  destruct (ParseUint _) as [un err].
  pose proof (int64_range un) as Hpos.
  pose proof (int64_range (- int64 un)) as Hneg.
  destruct err as [[]|]; [cbn [fst]; lia | |];
    (destruct (negb (Byte.eqb c x2d) && (2 ^ 63 <=? un)); [cbn [fst]; lia|];
     destruct (Byte.eqb c x2d && (2 ^ 63 <? un)); [cbn [fst]; lia|];
     destruct (Byte.eqb c x2d); cbn [fst]; lia).
Qed.

(** A run of the loop without error has read digits only and computed the
    number they write, within 64 bits. *)
Lemma ParseUint_loop_ok cs : ∀ n v,
  0 <= n <= maxUint64 → ParseUint_loop cs n = (v, None) →
  Forall is_digit cs ∧ v = decimal_from n cs ∧ 0 <= v <= maxUint64.
Proof.
  induction cs as [|c cs IH]; intros n v Hn Hloop.
  - simpl in Hloop. simplify_eq. simpl. auto.
  - rewrite ParseUint_loop_cons in Hloop. cbv zeta in Hloop.
    pose proof maxUint64_val as Hval.
    destruct (_ && _) eqn:Hc; [|discriminate].
    apply is_digit_test in Hc. pose proof Hc as Hc'. unfold is_digit in Hc'.
    destruct (1844674407370955162 <=? n) eqn:Hcut; [discriminate|].
    apply Z.leb_gt in Hcut.
    destruct (_ || _) eqn:Hov; [discriminate|].
    apply orb_false_iff in Hov as [Hov1 Hov2]. apply Z.ltb_ge in Hov1, Hov2.
    assert (Hsmall : n * 10 + (Z.of_N (Byte.to_N c) - 48) < 18446744073709551616).
    { destruct (Z_lt_dec (n * 10 + (Z.of_N (Byte.to_N c) - 48)) 18446744073709551616)
        as [Hlt|Hge]; [exact Hlt|]. exfalso.
      assert (Hwrap : (n * 10 + (Z.of_N (Byte.to_N c) - 48)) mod 18446744073709551616
                      = n * 10 + (Z.of_N (Byte.to_N c) - 48) - 18446744073709551616).
      { symmetry. apply Z.mod_unique with 1; lia. }
      lia. }
    rewrite Z.mod_small in Hloop, Hov2 by lia.
    apply IH in Hloop as (Hds & Hv & Hrange); [|lia].
    split; [by constructor|]. split; [exact Hv|exact Hrange].
Qed.

Lemma ParseUint_ok s v :
  ParseUint s = (v, None) →
  s ≠ [] ∧ Forall is_digit s ∧ v = decimal s ∧ 0 <= v <= maxUint64.
Proof.
  destruct s as [|c s]; unfold ParseUint; [discriminate|].
  intros Hloop. split; [done|].
  apply ParseUint_loop_ok; [|exact Hloop]. rewrite maxUint64_val. lia.
Qed.

(** [ParseInt] without error: an optional sign and a run of digits whose
    number fits [int]. *)
Lemma ParseInt_ok s v :
  ParseInt s = (v, None) →
  ∃ ds, ds ≠ [] ∧ Forall is_digit ds
    ∧ ((s = ds ∨ s = x2b :: ds) ∧ v = decimal ds ∧ decimal ds < 2 ^ 63
       ∨ s = x2d :: ds ∧ v = - decimal ds ∧ decimal ds <= 2 ^ 63).
Proof.
  unfold ParseInt. destruct s as [|c s]; [discriminate|].
  change (2 ^ (intSize - 1)) with (2 ^ 63).
  pose proof maxUint64_val as Hval.
  destruct (ParseUint _) as [un [[]|]] eqn:Hbody; [discriminate| |].
  - (* a range error of ParseUint ends as a range error *)
    destruct (ParseUint_error _ _ _ Hbody) as [[? _]|[_ ->]]; [discriminate|].
    destruct (Byte.eqb c x2d); simpl.
    + destruct (2 ^ 63 <? maxUint64) eqn:Hlt; [discriminate|].
      apply Z.ltb_ge in Hlt. lia.
    + destruct (2 ^ 63 <=? maxUint64) eqn:Hle; [discriminate|].
      apply Z.leb_gt in Hle. lia.
  - apply ParseUint_ok in Hbody as (Hne & Hds & -> & Hrange).
    destruct (Byte.eqb c x2d) eqn:Hminus; simpl.
    + apply Byte.byte_dec_bl in Hminus. subst c.
      rewrite orb_true_r in *.
      destruct (2 ^ 63 <? decimal s) eqn:Hcut; [discriminate|].
      apply Z.ltb_ge in Hcut. intros Heq. simplify_eq.
      exists s. split; [done|]. split; [done|]. right. split; [reflexivity|].
      split; [|exact Hcut].
      destruct (Z.eq_dec (decimal s) (2 ^ 63)) as [->|Hlt]; [reflexivity|].
      rewrite (int64_small (decimal s)), int64_small by lia. reflexivity.
    + rewrite orb_false_r in *.
      destruct (2 ^ 63 <=? decimal _) eqn:Hcut; [discriminate|].
      apply Z.leb_gt in Hcut. intros Heq. simplify_eq.
      rewrite int64_small by lia.
      destruct (Byte.eqb c x2b) eqn:Hplus.
      * apply Byte.byte_dec_bl in Hplus. subst c.
        exists s. split; [done|]. split; [done|]. left. auto.
      * exists (c :: s). split; [done|]. split; [done|]. left. auto.
Qed.

(** X15: [Data.Int] stays within [int].  For every payload the value
    returned is between -2^63 and 2^63 - 1. *)
Theorem Data_Int_range (d : Data) :
  - 2 ^ 63 <= fst (Data_Int d) <= 2 ^ 63 - 1.
Proof.
  rewrite Data_Int_bytes. simpl.
  pose proof (ParseInt_range (list_byte_of_string d)). lia.
Qed.

(** X16: [Data.Int] is silent on numbers only.  When [Data.Int] logs
    nothing, the payload is a run of decimal digits, with an optional sign
    in front and nothing else, and the value returned is the number it
    writes. *)
Theorem Data_Int_silent (d : Data) :
  snd (Data_Int d) = [] →
  ∃ ds, ds ≠ [] ∧ Forall is_digit ds
    ∧ ((list_byte_of_string d = ds ∨ list_byte_of_string d = x2b :: ds)
         ∧ fst (Data_Int d) = decimal ds ∧ decimal ds < 2 ^ 63
       ∨ list_byte_of_string d = x2d :: ds
         ∧ fst (Data_Int d) = - decimal ds ∧ decimal ds <= 2 ^ 63).
Proof.
  rewrite Data_Int_bytes. simpl.
  destruct (ParseInt (list_byte_of_string d)) as [v [Err|]] eqn:Hparse;
    [discriminate|].
  intros _. simpl. by apply ParseInt_ok.
Qed.

(** * The further properties on the example engines *)

(** X1 at work: "submit" bound on window 1, then dispatched with payload
    "hello" as event 7: the response "true" is added. *)
Lemma Window_Bind_then_dispatch_witness :
  fst (goWebuiEvent go_Marshal 1 WEBUI_EVENT_CALLBACK
                    (CString "submit") (CString "hello") 7 demo_world2)
  = Returns tt
  ∧ responses (trace (snd (goWebuiEvent go_Marshal 1 WEBUI_EVENT_CALLBACK
                                        (CString "submit") (CString "hello") 7
                                        demo_world2)))
    = responses (trace demo_world2) ++ [(1, 7, CString "true")].
Proof.
  apply (Window_Bind_then_dispatch go_Marshal 1 "submit" demo_callback
           WEBUI_EVENT_CALLBACK "hello" 7 demo_world1 demo_world2).
  - lia.
  - unfold WEBUI_EVENT_CALLBACK. lia.
  - apply no_NUL_check. reflexivity.
  - apply no_NUL_check. reflexivity.
  - reflexivity.
  - vm_compute. reflexivity.
Defined.

(** X2 at work: after the bind of "submit" the entry (1, 1) is the
    callback, and the others are as in the world before. *)
Lemma Window_Bind_lookup_witness :
  funcList_get (funcList demo_world2) 1 (bind_id 1 "submit" demo_world1)
  = Some demo_callback
  ∧ ∀ w' id', (w', id') ≠ (1, bind_id 1 "submit" demo_world1) →
      funcList_get (funcList demo_world2) w' id'
      = funcList_get (funcList demo_world1) w' id'.
Proof.
  apply (Window_Bind_lookup 1 "submit" (Some demo_callback) demo_world1 demo_world2).
  reflexivity.
Defined.

(** X3 at work: "cancel" bound to nil on window 1, then dispatched. *)
Lemma Window_Bind_nil_then_dispatch_witness :
  fst (goWebuiEvent go_Marshal 1 WEBUI_EVENT_MOUSE_CLICK
                    (CString "cancel") (CString EmptyString) 3
                    (snd (Window_Bind 1 "cancel" None demo_world1)))
  = Panics NilFuncCall.
Proof.
  apply (Window_Bind_nil_then_dispatch go_Marshal 1 "cancel"
           WEBUI_EVENT_MOUSE_CLICK (CString EmptyString) 3 demo_world1).
  - lia.
  - reflexivity.
  - vm_compute. reflexivity.
Defined.

(** X6 at work: with another callback bound on window 2 under the same id,
    the dispatch for window 1 is the same. *)
Lemma goWebuiEvent_other_windows_witness :
  goWebuiEvent go_Marshal 1 WEBUI_EVENT_CALLBACK (CString "submit") (CString "hello") 7
               (set_funcList demo_table_two_windows demo_world2)
  = (fst (goWebuiEvent go_Marshal 1 WEBUI_EVENT_CALLBACK
                       (CString "submit") (CString "hello") 7 demo_world2),
     set_funcList demo_table_two_windows
       (snd (goWebuiEvent go_Marshal 1 WEBUI_EVENT_CALLBACK
                          (CString "submit") (CString "hello") 7 demo_world2))).
Proof.
  apply (goWebuiEvent_other_windows go_Marshal 1 WEBUI_EVENT_CALLBACK
           (CString "submit") (CString "hello") 7 demo_world2
           demo_table_two_windows).
  reflexivity.
Defined.

(** X7 at work: from the world with "submit" bound on window 1, a second
    [NewWindow] and a dispatch later, [Bind] on window 1 still returns. *)
Lemma run_ops_keeps_windows_witness :
  ∃ σ', Window_Bind 1 "cancel" None
          (snd (goWebuiEvent go_Marshal 1 WEBUI_EVENT_CALLBACK
                  (CString "submit") (CString "hello") 7
                  (snd (NewWindow demo_world2))))
        = (Returns tt, σ').
Proof.
  assert (Hrun :
    run_ops go_Marshal
      [op_NewWindow;
       op_Event 1 WEBUI_EVENT_CALLBACK (CString "submit") (CString "hello") 7]
      demo_world2 ∅
    = Some (snd (goWebuiEvent go_Marshal 1 WEBUI_EVENT_CALLBACK
                   (CString "submit") (CString "hello") 7
                   (snd (NewWindow demo_world2))),
            {[2]} ∪ ∅)) by reflexivity.
  destruct (run_ops_keeps_windows go_Marshal _ _ _ _ _ Hrun) as (_ & _ & Hbind).
  apply (Hbind 1 "cancel"%string None). vm_compute. eauto.
Defined.


(** X9 at work: after [Show], [Run], [Close] and [Exit] the table is the
    one of before and [Bind] on window 1 returns. *)
Lemma run_control_frame_witness :
  funcList (world (run_control
                     [op_Show 1 "<html></html>"; op_Run 1 "go()"; op_Close 1; op_Exit]
                     demo_process))
  = funcList demo_world2
  ∧ ∃ σ', Window_Bind 1 "cancel" None
            (world (run_control
                      [op_Show 1 "<html></html>"; op_Run 1 "go()"; op_Close 1; op_Exit]
                      demo_process))
          = (Returns tt, σ').
Proof.
  destruct (run_control_frame
              [op_Show 1 "<html></html>"; op_Run 1 "go()"; op_Close 1; op_Exit]
              demo_process) as (Htable & _ & _ & _ & Hbind).
  split; [exact Htable|].
  apply (Hbind 1 "cancel"%string None). vm_compute. eauto.
Defined.

(** X10 at work: with a buffer of 4 bytes the text "hel" is returned: no
    NUL byte and fewer than 4 bytes. *)
Lemma Window_Script_returned_witness :
  (NUL ∉ list_byte_of_string "hel") ∧ Z.of_nat (String.length "hel") < 4.
Proof.
  destruct (Window_Script_returned 1 "return greeting" (mkScriptOptions 0 4)
              demo_world1 "hel" (Some (errors_New "Failed running JavaScript.")))
    as (_ & Hnul & Hshort & _).
  - vm_compute. discriminate.
  - reflexivity.
  - split; [exact Hnul|exact Hshort].
Defined.



(** X14 at work: on the reference engine, "a", NUL, "b" and "a" have the
    same encoding and the same decoding. *)
Lemma Encode_Decode_cut_witness :
  Encode (E := ref_engine) text_with_NUL = Encode (E := ref_engine) "a"
  ∧ Decode (E := ref_engine) text_with_NUL = Decode (E := ref_engine) "a".
Proof.
  apply (Encode_Decode_cut (E := ref_engine) text_with_NUL "a").
  - intros p q Hpq. simpl. rewrite Hpq. split; reflexivity.
  - reflexivity.
Defined.

(** X16 at work: "+7" is read without a log line, so it is a signed run
    of digits. *)
Lemma Data_Int_silent_witness :
  ∃ ds, ds ≠ [] ∧ Forall is_digit ds
    ∧ ((list_byte_of_string "+7" = ds ∨ list_byte_of_string "+7" = x2b :: ds)
         ∧ fst (Data_Int "+7") = decimal ds ∧ decimal ds < 2 ^ 63
       ∨ list_byte_of_string "+7" = x2d :: ds
         ∧ fst (Data_Int "+7") = - decimal ds ∧ decimal ds <= 2 ^ 63).
Proof.
  apply (Data_Int_silent "+7"). reflexivity.
Defined.
